(** * ligno: formatters, value encoder, context merge and handlers

    A shallow embedding of [formatter.go], the [Ctx]/[Record] file and the
    handler file of the ligno logging package, with the properties of its
    specification stated and proved (or refuted) over the embedding.

    Conventions.
    - A Go [string] and a [[]byte] are sequences of bytes: Rocq [string]s,
      one [ascii] per byte.  A [rune] is an integer ([Z]).
    - Go's [int] and the sized integer kinds are [Z].
    - A slice is a window on a backing array kept in a store; [append]
      writes in place when the capacity allows, as Go does.
    - A panic is an explicit outcome. *)

From Stdlib Require Import ZArith String Ascii Lia List Bool.
From Stdlib Require Import Floats.SpecFloat.
From stdpp Require Import gmap strings list fin_maps.

Local Open Scope Z_scope.

#[local] Arguments String.append !_ _ / : simpl nomatch.

(* ===================================================================== *)
(** * Part I: the embedding                                               *)
(* ===================================================================== *)

(** ** Bytes, runes and UTF-8 (Go's [unicode/utf8], [range] over a string) *)

Definition byte_val (a : ascii) : Z := Z.of_N (N_of_ascii a).
Definition byte_of (z : Z) : ascii := ascii_of_N (Z.to_N z).

Definition rune := Z.

(** [utf8.RuneError], U+FFFD. *)
Definition RuneError : rune := 0xFFFD.

(** The characters the package names, by code point. *)
Definition r_space : rune := 32.      (* space *)
Definition r_dquote : rune := 34.     (* double quote *)
Definition r_equals : rune := 61.     (* equals sign *)
Definition r_backslash : rune := 92.  (* backslash *)
Definition r_newline : rune := 10.    (* newline *)
Definition r_return : rune := 13.     (* carriage return *)
Definition r_tab : rune := 9.         (* tab *)

Definition str1 (a : ascii) : string := String a EmptyString.

(** [s[n:]] on a byte string. *)
Fixpoint drop_bytes (n : nat) (s : string) : string :=
  match n, s with
  | O, _ => s
  | S n', String _ s' => drop_bytes n' s'
  | S _, EmptyString => EmptyString
  end.

(** [s[:n]] on a byte string. *)
Fixpoint take_bytes (n : nat) (s : string) : string :=
  match n, s with
  | S n', String a s' => String a (take_bytes n' s')
  | _, _ => EmptyString
  end.

(** [utf8.DecodeRuneInString]: the first code point of [s] and its width in
    bytes; an invalid or truncated encoding gives [(RuneError, 1)], the empty
    string [(RuneError, 0)].  Overlong forms, surrogates and values above
    U+10FFFF are invalid (the accept ranges of the second byte).  The payload
    bits of a lead or continuation byte are written as a subtraction of its
    tag: [b & 0x3F = b - 0x80] for a continuation byte, and so on. *)
Definition DecodeRuneInString (s : string) : rune * nat :=
  match s with
  | EmptyString => (RuneError, 0%nat)
  | String a0 s1 =>
    let b0 := byte_val a0 in
    if b0 <? 0x80 then (b0, 1%nat)
    else if (b0 <? 0xC2) || (0xF4 <? b0) then (RuneError, 1%nat)
    else
      match s1 with
      | EmptyString => (RuneError, 1%nat)
      | String a1 s2 =>
        let b1 := byte_val a1 in
        let lo := if b0 =? 0xE0 then 0xA0 else if b0 =? 0xF0 then 0x90 else 0x80 in
        let hi := if b0 =? 0xED then 0x9F else if b0 =? 0xF4 then 0x8F else 0xBF in
        if (b1 <? lo) || (hi <? b1) then (RuneError, 1%nat)
        else if b0 <? 0xE0 then ((b0 - 0xC0) * 64 + (b1 - 0x80), 2%nat)
        else
          match s2 with
          | EmptyString => (RuneError, 1%nat)
          | String a2 s3 =>
            let b2 := byte_val a2 in
            if (b2 <? 0x80) || (0xBF <? b2) then (RuneError, 1%nat)
            else if b0 <? 0xF0 then
              ((b0 - 0xE0) * 4096 + (b1 - 0x80) * 64 + (b2 - 0x80), 3%nat)
            else
              match s3 with
              | EmptyString => (RuneError, 1%nat)
              | String a3 _ =>
                let b3 := byte_val a3 in
                if (b3 <? 0x80) || (0xBF <? b3) then (RuneError, 1%nat)
                else ((b0 - 0xF0) * 262144 + (b1 - 0x80) * 4096
                      + (b2 - 0x80) * 64 + (b3 - 0x80), 4%nat)
              end
          end
      end
  end.

(** [utf8.AppendRune], the bytes [WriteRune] of [bytes.Buffer] appends: the
    UTF-8 encoding of [r]; a surrogate or out-of-range [r] is encoded as
    [RuneError]. *)
Definition EncodeRune (r : rune) : string :=
  if (0 <=? r) && (r <? 0x80) then str1 (byte_of r)
  else if (0 <=? r) && (r <? 0x800) then
    String (byte_of (0xC0 + r / 64)) (str1 (byte_of (0x80 + r mod 64)))
  else if (r <? 0) || (0x10FFFF <? r) || ((0xD800 <=? r) && (r <=? 0xDFFF)) then
    String (byte_of 0xEF) (String (byte_of 0xBF) (str1 (byte_of 0xBD)))
  else if r <? 0x10000 then
    String (byte_of (0xE0 + r / 4096))
      (String (byte_of (0x80 + (r / 64) mod 64)) (str1 (byte_of (0x80 + r mod 64))))
  else
    String (byte_of (0xF0 + r / 262144))
      (String (byte_of (0x80 + (r / 4096) mod 64))
         (String (byte_of (0x80 + (r / 64) mod 64)) (str1 (byte_of (0x80 + r mod 64))))).

(** [for _, r := range s]: the runes the loop body sees, in order.  Each
    step decodes one rune and advances by its width (one byte on an invalid
    encoding).  [fuel] bounds the number of steps; the length of [s] is
    enough since every step consumes at least one byte. *)
Fixpoint range_runes (fuel : nat) (s : string) : list rune :=
  match fuel with
  | O => []
  | S fuel' =>
    match s with
    | EmptyString => []
    | String _ _ =>
      let '(r, w) := DecodeRuneInString s in
      r :: range_runes fuel' (drop_bytes w s)
    end
  end.

Definition runes (s : string) : list rune := range_runes (String.length s) s.

(** [utf8.ValidString]. *)
Fixpoint valid_utf8 (fuel : nat) (s : string) : bool :=
  match fuel with
  | O => match s with EmptyString => true | _ => false end
  | S fuel' =>
    match s with
    | EmptyString => true
    | String _ _ =>
      let '(r, w) := DecodeRuneInString s in
      negb ((r =? RuneError) && (w =? 1)%nat) && valid_utf8 fuel' (drop_bytes w s)
    end
  end.

Definition ValidString (s : string) : bool := valid_utf8 (String.length s) s.

(** ** [bytes.Buffer], as far as the package uses it *)

Definition Buffer := string.

Definition WriteString (s : string) (b : Buffer) : Buffer := b +:+ s.
Definition WriteByte (c : Z) (b : Buffer) : Buffer := b +:+ str1 (byte_of c).
Definition WriteRune (r : rune) (b : Buffer) : Buffer := b +:+ EncodeRune r.

(** Modelled from the spec: [buffPool] is declared outside the three source
    files; a formatter is a pure function of its event, so [Get] hands out an
    empty buffer. *)
Definition buffPool_Get : Buffer := EmptyString.

(** ** [strconv] and [fmt] for numbers *)

Definition digit (d : Z) : ascii := byte_of (48 + d).

(** The digit loop of [strconv.FormatUint(u, 10)] (and of [fmt]'s [%d]):
    least significant digit first, written right to left. *)
Fixpoint fmt_digits (fuel : nat) (u : Z) (acc : string) : string :=
  match fuel with
  | O => acc
  | S fuel' =>
    if u <? 10 then String (digit u) acc
    else fmt_digits fuel' (u / 10) (String (digit (u mod 10)) acc)
  end.

Definition FormatUint (u : Z) : string :=
  fmt_digits (S (Z.to_nat (Z.log2 u))) u EmptyString.

(** [strconv.Itoa], [strconv.FormatInt(i, 10)], [fmt.Sprintf("%d", i)]. *)
Definition FormatInt (i : Z) : string :=
  if i <? 0 then String "-"%char (FormatUint (- i)) else FormatUint i.

Definition Itoa (i : Z) : string := FormatInt i.

Definition FormatBool (b : bool) : string :=
  if b then "true"%string else "false"%string.

(** [n] written with exactly [prec] digits, zero padded on the left. *)
Fixpoint pad_digits (prec : nat) (n : Z) (acc : string) : string :=
  match prec with
  | O => acc
  | S p => pad_digits p (n / 10) (String (digit (n mod 10)) acc)
  end.

(** [num/den] rounded to the nearest integer, ties to even. *)
Definition round_half_even (num den : Z) : Z :=
  let q := num / den in
  let r := num mod den in
  if (den <? 2 * r) || ((den =? 2 * r) && Z.odd q) then q + 1 else q.

(** [strconv.FormatFloat(f, 'f', prec, 64)] on an IEEE-754 datum: the exact
    value [m * 2^e] rounded to [prec] decimals (ties to even), sign, integer
    part, point, [prec] digits; [NaN], [+Inf] and [-Inf] for the specials. *)
Definition FormatFloat_f (prec : nat) (f : spec_float) : string :=
  let sign (s : bool) := if s then "-"%string else EmptyString in
  let body (n : Z) :=
    let scale := 10 ^ Z.of_nat prec in
    FormatUint (n / scale) +:+
    match prec with
    | O => EmptyString
    | S _ => String "."%char (pad_digits prec (n mod scale) EmptyString)
    end in
  match f with
  | S754_nan => "NaN"%string
  | S754_infinity s => if s then "-Inf"%string else "+Inf"%string
  | S754_zero s => sign s +:+ body 0
  | S754_finite s m e =>
    let scale := 10 ^ Z.of_nat prec in
    let n := if 0 <=? e then Z.pos m * 2 ^ e * scale
             else round_half_even (Z.pos m * scale) (2 ^ (- e)) in
    sign s +:+ body n
  end.

(** ** [escapeString] *)

(** The first loop: the two flags after the scan. *)
Definition quote_test (r : rune) : bool :=
  (r <=? r_space) || (r =? r_equals) || (r =? r_dquote).

Definition escape_test (r : rune) : bool :=
  (r =? r_backslash) || (r =? r_dquote) || (r =? r_newline)
  || (r =? r_return) || (r =? r_tab).

Definition scan_step (flags : bool * bool) (r : rune) : bool * bool :=
  let '(needsQuotes, needsEscape) := flags in
  (if quote_test r then true else needsQuotes,
   if escape_test r then true else needsEscape).

Definition scan_flags (rs : list rune) : bool * bool :=
  fold_left scan_step rs (false, false).

(** The body of the second loop: what one rune appends to the buffer. *)
Definition escape_rune (r : rune) (e : Buffer) : Buffer :=
  if (r =? r_backslash) || (r =? r_dquote) then
    WriteByte r (WriteByte r_backslash e)
  else if r =? r_newline then WriteString (String "092"%char "n") e
  else if r =? r_return then WriteString (String "092"%char "r") e
  else if r =? r_tab then WriteString (String "092"%char "t") e
  else WriteRune r e.

Definition escapeString (s : string) : string :=
  let '(needsQuotes, needsEscape) := scan_flags (runes s) in
  if negb needsEscape && negb needsQuotes then s
  else
    let e := buffPool_Get in
    let e := WriteByte r_dquote e in
    let e := fold_left (fun e r => escape_rune r e) (runes s) e in
    let e := WriteByte r_dquote e in
    if needsQuotes then e
    else take_bytes (String.length e - 1 - 1) (drop_bytes 1 e).


(** ** Values of type [interface{}] *)

(** [time.Time]: an instant with its zone offset.  The package only prints
    it. *)
Record time_Time := mkTime { unix_sec : Z; nsec : Z; zone_offset : Z }.

(** [Level], the severity: an integer type with a [String] method, declared
    outside the three source files. *)
Definition LevelT := Z.

(** The ten integer kinds of the [case] in [formatLogfmtValue]. *)
Inductive int_kind :=
  | KInt | KInt8 | KInt16 | KInt32 | KInt64
  | KUint | KUint8 | KUint16 | KUint32 | KUint64.

(** A dynamic value.  [VOther shown] stands for a value of any other
    dynamic type (an error, a struct, ...); [shown] is what [fmt] prints
    for it under the verb [%+v]. *)
Inductive value :=
  | VNil
  | VTime (t : time_Time)
  | VLevel (l : LevelT)
  | VBool (b : bool)
  | VFloat32 (f : spec_float)
  | VFloat64 (f : spec_float)
  | VInt (k : int_kind) (n : Z)
  | VString (s : string)
  | VOther (shown : string).

(** A panic of the Go runtime, or a normal return. *)
Inductive panic := TypeAssertion | IndexOutOfRange | NegativeRepeatCount.

Inductive outcome (A : Type) :=
  | Returns (a : A)
  | Panics (p : panic).
Arguments Returns {A} a.
Arguments Panics {A} p.

(** [([]byte, error)] of the JSON encoder. *)
Inductive marshal_result :=
  | Marshaled (bytes : string)
  | MarshalError (text : string).

(** What the package takes from the Go library and from the files outside
    the three sources. *)
Class GoEnv := {
  (** [t.Format(DefaultTimeFormat)], the RFC3339Nano text of [t] *)
  Time_Format : time_Time -> string;
  (** [t.String()], what [fmt] prints for a [time.Time] *)
  Time_String : time_Time -> string;
  (** [Level.String] *)
  Level_String : LevelT -> string;
  levelNameMaxLength : Z;
  (** [unicode.IsPrint] *)
  IsPrint : rune -> bool;
  (** [fmt]'s [%v] of a [float32] and of a [float64] *)
  Sprint_float32 : spec_float -> string;
  Sprint_float64 : spec_float -> string;
  (** [json.Marshal] and [json.MarshalIndent] (four spaces) of a
      [map[string]interface{}] *)
  json_Marshal : gmap string value -> marshal_result;
  json_MarshalIndent : gmap string value -> marshal_result;
  (** the capacity [append] picks when it must grow a slice of capacity
      [old] to hold [needed] elements (at least [needed]) *)
  growslice : nat -> nat -> nat
}.

(** ** Slices and their backing arrays *)

Definition loc := positive.

(** A slice header: backing array, offset of element 0, length, capacity. *)
Record slice := mkSlice { s_arr : loc; s_off : nat; s_len : nat; s_cap : nat }.

(** The backing arrays.  An address without an array reads as the empty
    array, so that a [nil] slice is any header of length and capacity 0. *)
Abbreviation store := (gmap loc (list value)).

Definition array_at (st : store) (l : loc) : list value := default [] (st !! l).

(** [s[0], ..., s[len(s)-1]]. *)
Definition slice_elems (st : store) (s : slice) : list value :=
  take (s_len s) (drop (s_off s) (array_at st (s_arr s))).

(** The header lies within its array: an invariant of the Go runtime. *)
Definition slice_wf (st : store) (s : slice) : Prop :=
  (s_len s <= s_cap s)%nat /\
  (s_off s + s_cap s <= length (array_at st (s_arr s)))%nat.

(** Writing [xs] into an array from position [i] on ([copy]). *)
Definition write_at (i : nat) (xs : list value) (a : list value) : list value :=
  take i a ++ xs ++ drop (i + length xs) a.

(** A composite literal [[]interface{}{...}]: a new array of exactly these
    elements. *)
Definition slice_literal (st : store) (xs : list value) : store * slice :=
  let l := fresh (dom st) in
  (<[l := xs]> st, mkSlice l 0 (length xs) (length xs)).

(** [s[idx] = f(s[idx])]. *)
Definition slice_update (st : store) (s : slice) (idx : nat) (f : value -> value)
  : store :=
  alter (alter f (s_off s + idx)%nat) (s_arr s) st.

(** Slices on different arrays, or on windows of one array that do not
    meet. *)
Definition separate (s t : slice) : Prop :=
  s_arr s <> s_arr t \/ (s_off s + s_len s <= s_off t)%nat
  \/ (s_off t + s_len t <= s_off s)%nat.

(** ** [Record] *)

(** The [Logger] back-pointer is left out: no formatter or handler reads
    it. *)
Record LogRecord := mkRecord {
  Time : time_Time;
  Level : LevelT;
  Message : string;
  ContextList : slice;
  Pairs : slice;
  File : string;
  Line : Z
}.

(** [Theme]: declared outside the three source files; [ForLevel] gives the
    colouring function of a level. *)
Record Theme := mkTheme { ForLevel : LevelT -> string -> string }.

Section Formatters.

Context {env : GoEnv}.

(** [append(s, xs...)].  With nothing to add, [s] itself; within the
    capacity, the elements are written into the backing array of [s] after
    its last element; otherwise a new array receives the elements of [s],
    then [xs], then zero values up to its capacity. *)
Definition append (st : store) (s : slice) (xs : list value) : store * slice :=
  match xs with
  | [] => (st, s)
  | _ :: _ =>
    let n := (s_len s + length xs)%nat in
    if (n <=? s_cap s)%nat then
      (alter (write_at (s_off s + s_len s) xs) (s_arr s) st,
       mkSlice (s_arr s) (s_off s) n (s_cap s))
    else
      let l := fresh (dom st) in
      let c := Nat.max n (growslice (s_cap s) n) in
      (<[l := slice_elems st s ++ xs ++ replicate (c - n) VNil]> st,
       mkSlice l 0 n c)
  end.

(** [append(s, t...)] for a slice [t]: its elements are read before any is
    written. *)
Definition append_slice (st : store) (s t : slice) : store * slice :=
  append st s (slice_elems st t).


(** ** The formatters *)

(** [Formatter]: a record and the store of backing arrays in, the store
    and the bytes (or a panic) out. *)
Definition Formatter := LogRecord -> store -> store * outcome string.

Definition errorKey : string := "PARSE_ERROR".

(** [fmt.Sprintf("%+v", v)]. *)
Definition Sprintf_v (v : value) : string :=
  match v with
  | VNil => "<nil>"
  | VTime t => Time_String t
  | VLevel l => Level_String l
  | VBool b => FormatBool b
  | VFloat32 f => Sprint_float32 f
  | VFloat64 f => Sprint_float64 f
  | VInt _ n => FormatInt n
  | VString s => s
  | VOther shown => shown
  end.

(** [bytes.Repeat([]byte(" "), n)] for [n >= 0]. *)
Definition spaces (n : Z) : string :=
  fold_right (fun _ acc => String " "%char acc) EmptyString (seq 0 (Z.to_nat n)).

Definition SimpleFormat : Formatter := fun record st =>
  let buff := buffPool_Get in
  let buff := WriteString (Time_Format (Time record)) buff in
  let buff := WriteRune r_space buff in
  let buff := WriteString (Message record) buff in
  let buff := WriteRune r_space buff in
  let buff :=
    if negb (String.eqb (File record) EmptyString) && (0 <? Line record) then
      let buff := WriteRune 91 buff in                      (* '[' *)
      let buff := WriteString (File record) buff in
      let buff := WriteRune 58 buff in                      (* ':' *)
      let buff := WriteString (Itoa (Line record)) buff in
      WriteRune 93 buff                                     (* ']' *)
    else buff in
  let buff := WriteRune r_newline buff in
  (st, Returns buff).

Definition needsQuote (r : rune) : bool :=
  (r =? r_space) || (r =? r_dquote) || (r =? r_backslash) || (r =? r_equals)
  || negb (IsPrint r).

(** The three default fields every formatter but Simple puts in front. *)
Definition default_fields (record : LogRecord) : list value :=
  [VString "ts"; VTime (Time record);
   VString "lvl"; VLevel (Level record);
   VString "msg"; VString (Message record)].

Definition callsite_fields (record : LogRecord) : list value :=
  [VString "file"; VString (File record);
   VString "line"; VInt KInt (Line record)].

(** The loop of [ThemedTerminalFormat] over [record.Pairs], two elements a
    turn.  [strings.IndexFunc(k, needsQuote) >= 0] holds when some rune of
    [k] satisfies [needsQuote]; [i < len(record.Pairs)-2] when elements
    remain after this pair. *)
Fixpoint terminal_loop (pairs : list value) (buff : Buffer) : outcome Buffer :=
  match pairs with
  | [] => Returns buff
  | VString k :: rest =>
    let keyQuote := existsb needsQuote (runes k) || String.eqb k EmptyString in
    let buff := if keyQuote then WriteRune r_dquote buff else buff in
    let buff := WriteString k buff in
    let buff := if keyQuote then WriteRune r_dquote buff else buff in
    let buff := WriteRune r_equals buff in
    let buff := WriteRune r_dquote buff in
    match rest with
    | [] => Panics IndexOutOfRange
    | v :: rest' =>
      let buff := WriteString (Sprintf_v v) buff in
      let buff := WriteRune r_dquote buff in
      let buff := match rest' with [] => buff | _ :: _ => WriteRune r_space buff end in
      terminal_loop rest' buff
    end
  | _ :: _ => Panics TypeAssertion
  end.

Definition ThemedTerminalFormat (theme : Theme) : Formatter := fun record st =>
  let buff := buffPool_Get in
  let levelColor := ForLevel theme (Level record) in
  let levelName := Level_String (Level record) in
  let buff := WriteString (levelColor levelName) buff in
  let padSpaces := levelNameMaxLength - Z.of_nat (String.length levelName) + 2 in
  if padSpaces <? 0 then (st, Panics NegativeRepeatCount)
  else
    let buff := WriteString (spaces padSpaces) buff in
    let buff := WriteRune r_space buff in
    let buff := WriteString (Message record) buff in
    let '(st, pairs) := append_slice st (ContextList record) (Pairs record) in
    let '(st, lit) := slice_literal st (default_fields record) in
    let '(st, pairs) := append_slice st lit pairs in
    let buff := if (0 <? s_len pairs)%nat then WriteString " [" buff else buff in
    match terminal_loop (slice_elems st pairs) buff with
    | Panics p => (st, Panics p)
    | Returns buff =>
      let buff := if (0 <? s_len pairs)%nat then WriteRune 93 buff else buff in
      let buff := WriteRune r_newline buff in
      (st, Returns buff)
    end.

(** The first loop of [JSONFormat]: every element of [record.ContextList]
    is overwritten, in its backing array, by its [%+v] text. *)
Definition flatten (v : value) : value := VString (Sprintf_v v).

Definition flatten_ContextList (st : store) (s : slice) : store :=
  fold_left (fun st idx => slice_update st s idx flatten) (seq 0 (s_len s)) st.

(** The field list of [JSONFormat], as [record.Pairs] holds it when the
    loop that fills [tmpMap] starts. *)
Definition json_assemble (record : LogRecord) (st : store) : store * slice :=
  let st := flatten_ContextList st (ContextList record) in
  let '(st, pairs) := append_slice st (ContextList record) (Pairs record) in
  let '(st, lit) := slice_literal st (default_fields record) in
  let '(st, pairs) := append_slice st lit pairs in
  if 0 <? Line record then append st pairs (callsite_fields record)
  else (st, pairs).

(** [tmpMap[record.Pairs[i].(string)] = record.Pairs[i+1]], two elements a
    turn; the type assertion is evaluated before the index [i+1]. *)
Fixpoint json_fill (pairs : list value) (tmpMap : gmap string value)
  : outcome (gmap string value) :=
  match pairs with
  | [] => Returns tmpMap
  | VString k :: rest =>
    match rest with
    | [] => Panics IndexOutOfRange
    | v :: rest' => json_fill rest' (<[k := v]> tmpMap)
    end
  | _ :: _ => Panics TypeAssertion
  end.

(** The serialisation step of [JSONFormat], with its fallback object; the
    error of the second [json.Marshal] is dropped, as the source drops it. *)
Definition json_serialize (pretty : bool) (tmpMap : gmap string value) : string :=
  let marshaled :=
    match (if pretty then json_MarshalIndent tmpMap else json_Marshal tmpMap) with
    | Marshaled bytes => bytes
    | MarshalError text =>
      match json_Marshal {[ "JSONError"%string := VString text ]} with
      | Marshaled bytes => bytes
      | MarshalError _ => EmptyString
      end
    end in
  marshaled +:+ str1 (byte_of r_newline).

Definition JSONFormat (pretty : bool) : Formatter := fun record st =>
  let '(st, pairs) := json_assemble record st in
  match json_fill (slice_elems st pairs) ∅ with
  | Panics p => (st, Panics p)
  | Returns tmpMap => (st, Returns (json_serialize pretty tmpMap))
  end.

(** [formatLogfmtValue]. *)
Definition formatLogfmtValue (v : value) : string :=
  match v with
  | VNil => "nil"
  | VTime t => Time_Format t
  | VBool b => FormatBool b
  | VFloat32 f => FormatFloat_f 3 f
  | VFloat64 f => FormatFloat_f 3 f
  | VInt _ n => FormatInt n
  | VString s => escapeString s
  | VLevel _ | VOther _ => escapeString (Sprintf_v v)
  end.

(** [k, ok := x.(string)]: the string and [true], or the zero value of
    [string] and [false]. *)
Definition assert_string (x : value) : string * bool :=
  match x with
  | VString s => (s, true)
  | _ => (EmptyString, false)
  end.

(** The field list of [LogFmtFormat]. *)
Definition logfmt_assemble (record : LogRecord) (st : store) : store * slice :=
  let '(st, pairs) := append_slice st (ContextList record) (Pairs record) in
  let '(st, lit) := slice_literal st (default_fields record) in
  let '(st, pairs) := append_slice st lit pairs in
  if 0 <? Line record then append st pairs (callsite_fields record)
  else (st, pairs).

(** One turn of the encoding loop of [LogFmtFormat] on the pair
    [(x, y) = (record.Pairs[i], record.Pairs[i+1])]. *)
Definition logfmt_pair (x y : value) (buf : Buffer) : Buffer :=
  let '(k, ok) := assert_string x in
  let v := formatLogfmtValue y in
  let '(k, v) := if negb ok then (errorKey, formatLogfmtValue (VString k))
                 else (k, v) in
  let buf := WriteString k buf in
  let buf := WriteByte r_equals buf in
  WriteString v buf.

(** The encoding loop; [first] is [i == 0]. *)
Fixpoint logfmt_loop (first : bool) (pairs : list value) (buf : Buffer)
  : outcome Buffer :=
  match pairs with
  | [] => Returns buf
  | x :: rest =>
    let buf := if first then buf else WriteByte r_space buf in
    match rest with
    | [] => Panics IndexOutOfRange
    | y :: rest' => logfmt_loop false rest' (logfmt_pair x y buf)
    end
  end.

Definition LogFmtFormat : Formatter := fun record st =>
  let '(st, pairs) := logfmt_assemble record st in
  match logfmt_loop true (slice_elems st pairs) EmptyString with
  | Panics p => (st, Panics p)
  | Returns buf => (st, Returns (WriteByte r_newline buf))
  end.

End Formatters.

(** ** [Ctx] and [merge] *)

(** A Go map is a reference: [Ctx] is [nil] or the address of a table kept
    in a store of maps. *)
Definition Ctx := option loc.

Abbreviation map_store := (gmap loc (gmap string value)).

(** The entries a [Ctx] holds; a [nil] map has none. *)
Definition entries (h : map_store) (c : Ctx) : gmap string value :=
  match c with
  | None => ∅
  | Some l => default ∅ (h !! l)
  end.

(** [m[k] = v] on the map at address [l]. *)
Definition map_assign (l : loc) (k : string) (v : value) (h : map_store)
  : map_store :=
  alter (<[k := v]>) l h.

Section Merge.

(** [for k, v := range m] visits the entries of [m] in an order the
    language leaves open: [range_order m] is the order of this run. *)
Variable range_order : gmap string value -> list (string * value).

Definition merge (ctx other : Ctx) (h : map_store) : map_store * Ctx :=
  let newCtx := fresh (dom h) in
  let h := <[newCtx := ∅]> h in
  let h := fold_left (fun h '(k, v) => map_assign newCtx k v h)
                     (range_order (entries h ctx)) h in
  let h := fold_left (fun h '(k, v) => map_assign newCtx k v h)
                     (range_order (entries h other)) h in
  (h, Some newCtx).

End Merge.

(** ** Handlers *)

Section Handlers.

(** [World]: the state of the sinks (open files, buffers, memory); [error]:
    Go's [error] values, [None] for [nil]. *)
Context {World error : Type}.

Definition Handler := LogRecord -> World -> World * outcome (option error).

Definition NullHandler : Handler := fun _ w => (w, Returns None).

Definition FilterHandler (predicate : LogRecord -> bool) (handler : Handler)
  : Handler :=
  fun record w =>
    if predicate record then handler record w else (w, Returns None).

Definition FilterLevelHandler (level : LevelT) (handler : Handler) : Handler :=
  FilterHandler (fun record => level <=? Level record) handler.

(** The loop of [combiningHandler.Handle]; [err] is the variable the loop
    overwrites at every turn.  A panic of a sub-handler unwinds the loop. *)
Fixpoint combining_loop (Handlers : list Handler) (record : LogRecord)
    (err : option error) (w : World) : World * outcome (option error) :=
  match Handlers with
  | [] => (w, Returns err)
  | h :: rest =>
    match h record w with
    | (w', Returns err') => combining_loop rest record err' w'
    | (w', Panics p) => (w', Panics p)
    end
  end.

Definition combiningHandler_Handle (Handlers : list Handler) : Handler :=
  fun record w => combining_loop Handlers record None w.

Definition CombiningHandler (handlers : list Handler) : Handler :=
  combiningHandler_Handle handlers.

End Handlers.

Arguments Handler : clear implicits.

(** ** [escapeString] as the specification words it

    Character by character on the bytes of [s]: the reference the embedding
    of the source is compared with. *)

Definition needs_quoting (a : ascii) : bool :=
  let b := byte_val a in (b <=? 32) || (b =? 61) || (b =? 34).

Definition needs_escaping (a : ascii) : bool :=
  let b := byte_val a in
  (b =? 92) || (b =? 34) || (b =? 10) || (b =? 13) || (b =? 9).

Fixpoint string_exists (f : ascii -> bool) (s : string) : bool :=
  match s with
  | EmptyString => false
  | String a s' => f a || string_exists f s'
  end.

Definition escape_byte (a : ascii) : string :=
  let b := byte_val a in
  if (b =? 92) || (b =? 34) then String "092"%char (str1 a)
  else if b =? 10 then String "092"%char "n"
  else if b =? 13 then String "092"%char "r"
  else if b =? 9 then String "092"%char "t"
  else str1 a.

Fixpoint escaped_copy (s : string) : string :=
  match s with
  | EmptyString => EmptyString
  | String a s' => escape_byte a +:+ escaped_copy s'
  end.


(** [s] as the second loop of [escapeString] sees it: its runes, each
    encoded again.  Every byte that is not part of a valid encoding has
    become the three bytes of U+FFFD. *)
Definition reencode (s : string) : string :=
  fold_right (fun r acc => EncodeRune r +:+ acc) EmptyString (runes s).

(** A decoded rune [r] and the bytes [c] it was read from agree: the loop
    body appends for [r] what the byte-wise copy appends for [c], and the
    two tests of the scan give the same answers. *)
Definition step_agrees (r : rune) (c : string) : Prop :=
  (forall e, escape_rune r e = e +:+ escaped_copy c) /\
  quote_test r = string_exists needs_quoting c /\
  escape_test r = string_exists needs_escaping c.

(** The sample of the specification: a, space, quoted b, tab, c. *)
Definition escaping_sample : string :=
  String "a"%char (String " "%char (String "034"%char (String "b"%char
    (String "034"%char (String "009"%char "c"))))).


(** ** Reading decimal numerals: the reference for the number encoders *)

Definition is_digit (a : ascii) : bool :=
  (48 <=? byte_val a) && (byte_val a <=? 57).

Fixpoint all_digits (s : string) : bool :=
  match s with
  | EmptyString => true
  | String a s' => is_digit a && all_digits s'
  end.

Definition nonempty (s : string) : bool :=
  match s with EmptyString => false | String _ _ => true end.

(** The number a string of digits denotes in base 10, after [acc]. *)
Fixpoint read_digits (s : string) (acc : Z) : Z :=
  match s with
  | EmptyString => acc
  | String a s' => read_digits s' (10 * acc + (byte_val a - 48))
  end.







(** ** Field lists as key/value pairs: the reference for the formatters *)

(** The elements a slice holds once a formatter has assembled it. *)
Definition fields_of (p : store * slice) : list value := slice_elems p.1 p.2.

(** A list of pairs with string keys, laid out as alternating elements. *)
Fixpoint flat (kvs : list (string * value)) : list value :=
  match kvs with
  | [] => []
  | (k, v) :: kvs' => VString k :: v :: flat kvs'
  end.

(** The number of key/value pairs in a list of alternating elements. *)
Fixpoint pair_count (l : list value) : nat :=
  match l with
  | _ :: _ :: l' => S (pair_count l')
  | _ => O
  end.

Definition default_kvs (record : LogRecord) : list (string * value) :=
  [("ts"%string, VTime (Time record));
   ("lvl"%string, VLevel (Level record));
   ("msg"%string, VString (Message record))].

(** [file] and [line], when the call site is present. *)
Definition callsite_kvs (record : LogRecord) : list (string * value) :=
  if 0 <? Line record then
    [("file"%string, VString (File record));
     ("line"%string, VInt KInt (Line record))]
  else [].

(** The value of the last pair with key [k], if any. *)
Definition last_value (k : string) (kvs : list (string * value)) : option value :=
  fold_left (fun acc kv => if String.eqb kv.1 k then Some kv.2 else acc) kvs None.

(** Entries separated by single spaces. *)
Definition unwords (entries : list string) : string := String.concat " " entries.

Section Entries.

Context {env : GoEnv}.

(** One LogFmt entry: the key, an equals sign, the encoded value. *)
Definition logfmt_kv (kv : string * value) : string :=
  kv.1 +:+ String "="%char (formatLogfmtValue kv.2).

(** One Terminal entry: the key, quoted when it needs it, an equals sign,
    the value between double quotes. *)
Definition terminal_kv (kv : string * value) : string :=
  let q := if existsb needsQuote (runes kv.1) || String.eqb kv.1 EmptyString
           then str1 (byte_of r_dquote) else EmptyString in
  q +:+ kv.1 +:+ q +:+ String "="%char
    (str1 (byte_of r_dquote) +:+ Sprintf_v kv.2 +:+ str1 (byte_of r_dquote)).

(** A static pair as the JSON formatter leaves it. *)
Definition flatten_kv (kv : string * value) : string * value :=
  (kv.1, flatten kv.2).

End Entries.

(** ** Sample events *)

Definition sample_time : time_Time := mkTime 1614834367 8 0.

(** An event whose only dynamic pair has the integer key 42. *)
Definition badkey_store : store := {[ 1%positive := [VInt KInt 42; VString "x"] ]}.
Definition badkey_record : LogRecord :=
  mkRecord sample_time 1 "hi" (mkSlice 2%positive 0%nat 0%nat 0%nat) (mkSlice 1%positive 0%nat 2%nat 2%nat) EmptyString 0.

(** An event of a logger whose static context is [n=42 k=nil]. *)
Definition static_store : store :=
  {[ 1%positive := [VString "n"; VInt KInt 42; VString "k"; VNil] ]}.
Definition static_record : LogRecord :=
  mkRecord sample_time 1 "hi" (mkSlice 1%positive 0%nat 4%nat 4%nat) (mkSlice 2%positive 0%nat 0%nat 0%nat) EmptyString 0.

(** A backing array that two loggers share: the parent's static context is
    its first two elements, with room for two more; the child's static
    context is all four.  The event is the parent's, with one dynamic
    pair. *)
Definition shared_store : store :=
  {[ 1%positive := [VString "app"; VString "web"; VString "svc"; VString "db"];
     2%positive := [VString "user"; VInt KInt 7] ]}.
Definition parent_record : LogRecord :=
  mkRecord sample_time 1 "hi" (mkSlice 1%positive 0%nat 2%nat 4%nat)
           (mkSlice 2%positive 0%nat 2%nat 2%nat) EmptyString 0.
Definition child_context : slice := mkSlice 1%positive 0%nat 4%nat 4%nat.

(** An event with the key [a] twice in its dynamic pairs. *)
Definition dup_store : store :=
  {[ 1%positive := [VString "a"; VInt KInt 1; VString "a"; VInt KInt 2] ]}.
Definition dup_record : LogRecord :=
  mkRecord sample_time 1 "hi" (mkSlice 2%positive 0%nat 0%nat 0%nat) (mkSlice 1%positive 0%nat 4%nat 4%nat) EmptyString 0.

(** An event with one static and one dynamic pair and a call site. *)
Definition plain_store : store :=
  {[ 1%positive := [VString "app"; VString "web"];
     2%positive := [VString "user"; VInt KInt 7] ]}.
Definition plain_record : LogRecord :=
  mkRecord sample_time 1 "hi" (mkSlice 1%positive 0%nat 2%nat 2%nat) (mkSlice 2%positive 0%nat 2%nat 2%nat) "main.go" 12.

(** An event with a positive line and no file name. *)
Definition nofile_record : LogRecord :=
  mkRecord sample_time 1 "hi" (mkSlice 1%positive 0%nat 0%nat 0%nat)
           (mkSlice 2%positive 0%nat 0%nat 0%nat) EmptyString 12.

(** ** Observing the calls a combining handler makes *)

Section Tracing.

Context {World error : Type}.

(** The handler [h], which also notes its index [i] in a log of calls kept
    next to the state of the sinks. *)
Definition traced (i : nat) (h : Handler World error)
  : Handler (World * list nat) error :=
  fun record wt =>
    let '(w', o) := h record wt.1 in ((w', wt.2 ++ [i]), o).

(** The handlers of a list, each noting its position, counted from [i]. *)
Fixpoint trace_all (i : nat) (hs : list (Handler World error))
  : list (Handler (World * list nat) error) :=
  match hs with
  | [] => []
  | h :: hs' => traced i h :: trace_all (S i) hs'
  end.


End Tracing.

(** A sink that keeps what is written to it, and three handlers on it: the
    first and the last fail after writing. *)
Definition failing_writer (text : string) (err : option string)
  : Handler (list string) string :=
  fun _ w => (w ++ [text], Returns err).

Definition sample_handlers : list (Handler (list string) string) :=
  [failing_writer "one" (Some "disk full"%string);
   failing_writer "two" None;
   failing_writer "three" (Some "closed"%string)].

(** A [Ctx] is [nil] or the address of a map that exists. *)
Definition ctx_valid (h : map_store) (c : Ctx) : Prop :=
  match c with
  | None => True
  | Some l => is_Some (h !! l)
  end.

(** Two contexts that share the key [user]. *)
Definition ctx_store : map_store :=
  {[ 1%positive := {[ "app"%string := VString "web"; "user"%string := VInt KInt 1 ]};
     2%positive := {[ "user"%string := VInt KInt 2 ]} ]}.

(** ** A concrete environment, for the closed statements

    A fixed clock text, four level names, ASCII printability, and an
    encoder that only counts the fields it is given. *)
Definition demoEnv : GoEnv := {|
  Time_Format := fun _ => "2021-03-04T05:06:07.000000008Z"%string;
  Time_String := fun _ => "2021-03-04 05:06:07.000000008 +0000 UTC"%string;
  Level_String := fun l =>
    if l =? 0 then "DEBUG"%string else if l =? 1 then "INFO"%string
    else if l =? 2 then "WARNING"%string else "ERROR"%string;
  levelNameMaxLength := 8;
  IsPrint := fun r => (32 <=? r) && (r <? 127);
  Sprint_float32 := FormatFloat_f 3;
  Sprint_float64 := FormatFloat_f 3;
  json_Marshal := fun m => Marshaled (FormatInt (Z.of_nat (size m)));
  json_MarshalIndent := fun m => Marshaled (FormatInt (Z.of_nat (size m)));
  growslice := fun old needed => (2 * old)%nat
|}.


(** ** Field lists of any shape: the reference for the failure cases *)

(** The pairs of a list of alternating elements; a last element without a
    partner is left out. *)
Fixpoint pair_up (l : list value) : list (value * value) :=
  match l with
  | x :: y :: l' => (x, y) :: pair_up l'
  | _ => []
  end.

(** Keys at the even positions, all of them strings, each with a value. *)
Fixpoint is_flat (l : list value) : bool :=
  match l with
  | [] => true
  | VString _ :: _ :: l' => is_flat l'
  | _ => false
  end.

Section AnyEntries.

Context {env : GoEnv}.

(** One LogFmt entry for a pair with whatever key. *)
Definition logfmt_entry (xy : value * value) : string :=
  logfmt_pair xy.1 xy.2 EmptyString.

End AnyEntries.

Section Encoders.

Context {env : GoEnv}.

(** The encoding half of [LogFmtFormat]: the loop over the assembled
    fields and the final newline. *)
Definition logfmt_encode (fields : list value) : outcome string :=
  match logfmt_loop true fields EmptyString with
  | Panics p => Panics p
  | Returns buf => Returns (WriteByte r_newline buf)
  end.

(** The encoding half of [JSONFormat]: the loop that fills [tmpMap] and the
    serialisation. *)
Definition json_encode (pretty : bool) (fields : list value) : outcome string :=
  match json_fill fields ∅ with
  | Panics p => Panics p
  | Returns tmpMap => Returns (json_serialize pretty tmpMap)
  end.

(** [padSpaces] of [ThemedTerminalFormat]. *)
Definition padSpaces (record : LogRecord) : Z :=
  levelNameMaxLength - Z.of_nat (String.length (Level_String (Level record))) + 2.

(** What [ThemedTerminalFormat] writes before the bracket. *)
Definition terminal_head (theme : Theme) (record : LogRecord) : string :=
  ForLevel theme (Level record) (Level_String (Level record))
  +:+ spaces (padSpaces record) +:+ " " +:+ Message record.

End Encoders.

(** A slice [t] that the first [append] of a formatter cannot reach: it
    lies on another array than the static context [cl], or on the same
    array and ends no later than [cl] does. *)
Definition out_of_reach (cl t : slice) : Prop :=
  s_arr t <> s_arr cl
  \/ (s_arr t = s_arr cl /\ (s_off t + s_len t <= s_off cl + s_len cl)%nat).

(** The window of the backing array of [cl] right after its last element,
    as long as [p]: where [append(cl, p...)] writes when [p] fits. *)
Definition spare_window (cl p : slice) : slice :=
  mkSlice (s_arr cl) (s_off cl + s_len cl) (s_len p) (s_len p).

(** A byte that would break a line or a column: newline, carriage return,
    tab. *)
Definition is_break (a : ascii) : bool :=
  let b := byte_val a in (b =? 10) || (b =? 13) || (b =? 9).

(** A text a reader of the line takes for one value: no raw line break or
    tab in it, and, if it holds a byte that ends or splits a bare word (a
    space, a control byte, an equals sign, a double quote), it is an
    escaped copy between double quotes. *)
Definition one_token (x : string) : Prop :=
  string_exists is_break x = false /\
  (string_exists needs_quoting x = true ->
   exists t, x = str1 (byte_of 34) +:+ escaped_copy t +:+ str1 (byte_of 34)).

(** The keys of a field list, as the LogFmt formatter writes them, bring no
    line break or tab: a string key has none; a key of another type is
    replaced by the sentinel. *)
Definition unbroken_key (x : value) : bool :=
  match x with
  | VString k => negb (string_exists is_break k)
  | _ => true
  end.

Definition keys_unbroken (l : list value) : bool :=
  forallb (fun xy => unbroken_key xy.1) (pair_up l).

(** Reading an escaped copy back: the character after a backslash stands
    for itself, or for newline, carriage return or tab when it is [n], [r]
    or [t]. *)
Definition unescape_byte (c : ascii) : ascii :=
  let b := byte_val c in
  if b =? 110 then byte_of 10
  else if b =? 114 then byte_of 13
  else if b =? 116 then byte_of 9
  else c.

Fixpoint unescape (s : string) : string :=
  match s with
  | EmptyString => EmptyString
  | String a s' =>
    if byte_val a =? 92 then
      match s' with
      | EmptyString => EmptyString
      | String c s'' => String (unescape_byte c) (unescape s'')
      end
    else String a (unescape s')
  end.

(** ** [StreamHandler], and handlers as values with or without [Close] *)

Section Streams.

Context {Sink error : Type}.

(** [io.Writer]: [Write] on the bytes, its error returned; the count is
    dropped by every caller in the package. *)
Definition Writer := string -> Sink -> Sink * option error.

(** The world of a stream handler: the backing arrays the formatters work
    on, and the sink. *)
Definition StreamHandler (out : Writer) (formatter : Formatter)
  : Handler (store * Sink) error :=
  fun record w =>
    match formatter record w.1 with
    | (st, Panics p) => ((st, w.2), Panics p)
    | (st, Returns bytes) =>
      let '(sink, err) := out bytes w.2 in ((st, sink), Returns err)
    end.

End Streams.

Section Closers.

Context {World error : Type}.

(** A handler as the type assertion [h.(HandlerCloser)] sees it: a
    [HandlerFunc] has the method [Handle] only; [bufferedHandler] and
    [fileHandler] have [Close] as well; so has [combiningHandler]. *)
#[warnings="-register-all"] Inductive handler_value :=
  | HandlerFunc (hf : Handler World error)
  | closingHandler (handle : Handler World error) (close : World -> World)
  | combiningHandler (Handlers : list handler_value).

Fixpoint Handle (h : handler_value) : Handler World error :=
  match h with
  | HandlerFunc hf => hf
  | closingHandler handle _ => handle
  | combiningHandler Handlers => combiningHandler_Handle (map Handle Handlers)
  end.

(** [h.(HandlerCloser)]: the method [Close] of [h], if it has one.  For a
    combining handler, [Close] is the loop over its handlers. *)
Fixpoint HandlerCloser (h : handler_value) : option (World -> World) :=
  match h with
  | HandlerFunc _ => None
  | closingHandler _ close => Some close
  | combiningHandler Handlers =>
    Some (fun w =>
            fold_left (fun w h' =>
                         match HandlerCloser h' with
                         | Some close => close w
                         | None => w
                         end) Handlers w)
  end.

Definition combiningHandler_Close (Handlers : list handler_value) (w : World)
  : World :=
  fold_left (fun w h =>
               match HandlerCloser h with
               | Some close => close w
               | None => w
               end) Handlers w.

(** [FilterHandler] and [FilterLevelHandler] as values: each returns a
    [HandlerFunc]. *)
Definition FilterHandler_value (predicate : LogRecord -> bool) (handler : handler_value)
  : handler_value :=
  HandlerFunc (FilterHandler predicate (Handle handler)).

Definition FilterLevelHandler_value (level : LevelT) (handler : handler_value)
  : handler_value :=
  FilterHandler_value (fun record => level <=? Level record) handler.

End Closers.

Arguments handler_value : clear implicits.

(** A writer that keeps the lines it is given. *)
Definition keep_lines : @Writer (list string) string :=
  fun bytes sink => (sink ++ [bytes], None).

(** An event with a key and no value. *)
Definition odd_store : store := {[ 2%positive := [VString "user"] ]}.

Definition odd_record : LogRecord :=
  mkRecord sample_time 1 "hi" (mkSlice 1%positive 0%nat 0%nat 0%nat)
           (mkSlice 2%positive 0%nat 1%nat 1%nat) EmptyString 0.

(** Three stream handlers on one sink; the second formats with LogFmt. *)
Definition stream_handlers : list (Handler (store * list string) string) :=
  [StreamHandler keep_lines (@SimpleFormat demoEnv);
   StreamHandler keep_lines (@LogFmtFormat demoEnv);
   StreamHandler keep_lines (@SimpleFormat demoEnv)].

(* ===================================================================== *)
(** * Part II: properties                                                 *)
(* ===================================================================== *)

(** ** Bytes and strings *)

Lemma byte_val_range (a : ascii) : 0 <= byte_val a < 256.
Proof.
  unfold byte_val. pose proof (N_ascii_bounded a). lia.
Qed.

Lemma byte_of_val (a : ascii) : byte_of (byte_val a) = a.
Proof.
  unfold byte_of, byte_val. rewrite N2Z.id. apply ascii_N_embedding.
Qed.

Lemma byte_of_eq (z : Z) (a : ascii) : z = byte_val a -> byte_of z = a.
Proof. intros ->. apply byte_of_val. Qed.

Lemma byte_val_of (z : Z) : 0 <= z < 256 -> byte_val (byte_of z) = z.
Proof.
  intros Hz. unfold byte_of, byte_val.
  rewrite N_ascii_embedding by lia. lia.
Qed.

Lemma append_nil_r (s : string) : s +:+ EmptyString = s.
Proof. induction s as [|a s IH]; simpl; [reflexivity | now rewrite IH]. Qed.

Lemma append_assoc (s t u : string) : (s +:+ t) +:+ u = s +:+ (t +:+ u).
Proof. induction s as [|a s IH]; simpl; [reflexivity | now rewrite IH]. Qed.

Lemma append_length (s t : string) :
  String.length (s +:+ t) = (String.length s + String.length t)%nat.
Proof. induction s as [|a s IH]; simpl; [reflexivity | now rewrite IH]. Qed.

Lemma take_drop_bytes (n : nat) (s : string) :
  take_bytes n s +:+ drop_bytes n s = s.
Proof.
  revert s. induction n as [|n IH]; intros [|a s]; simpl; try reflexivity.
  now rewrite IH.
Qed.

Lemma drop_bytes_length (n : nat) (s : string) :
  String.length (drop_bytes n s) = (String.length s - n)%nat.
Proof.
  revert s. induction n as [|n IH]; intros [|a s]; simpl; try reflexivity.
  apply IH.
Qed.

Lemma take_bytes_app (s t : string) : take_bytes (String.length s) (s +:+ t) = s.
Proof. induction s as [|a s IH]; simpl; [now destruct t | now rewrite IH]. Qed.

Lemma string_exists_app (f : ascii -> bool) (s t : string) :
  string_exists f (s +:+ t) = string_exists f s || string_exists f t.
Proof.
  induction s as [|a s IH]; simpl; [reflexivity|].
  rewrite IH. now rewrite orb_assoc.
Qed.

Lemma escaped_copy_app (s t : string) :
  escaped_copy (s +:+ t) = escaped_copy s +:+ escaped_copy t.
Proof.
  induction s as [|a s IH]; simpl; [reflexivity|].
  rewrite IH. now rewrite append_assoc.
Qed.

(** ** UTF-8: a decoded rune encodes back to the bytes it was read from *)

Ltac cmp_cases :=
  repeat match goal with
  | |- context [?a <? ?b] => destruct (Z.ltb_spec a b); simpl; try lia
  | |- context [?a <=? ?b] => destruct (Z.leb_spec a b); simpl; try lia
  | |- context [?a =? ?b] => destruct (Z.eqb_spec a b); simpl; try lia
  end.

Ltac cmp_cases_in H :=
  repeat match type of H with
  | context [?a <? ?b] => destruct (Z.ltb_spec a b); simpl in H; try lia
  | context [?a <=? ?b] => destruct (Z.leb_spec a b); simpl in H; try lia
  | context [?a =? ?b] => destruct (Z.eqb_spec a b); simpl in H; try lia
  end.

Lemma encode_two (b0 b1 : Z) :
  0xC2 <= b0 <= 0xDF -> 0x80 <= b1 <= 0xBF ->
  EncodeRune ((b0 - 0xC0) * 64 + (b1 - 0x80))
  = String (byte_of b0) (str1 (byte_of b1)).
Proof.
  intros H0 H1. unfold EncodeRune. cmp_cases.
  unfold str1. repeat f_equal; Z.div_mod_to_equations; lia.
Qed.

Lemma encode_three (b0 b1 b2 : Z) :
  0xE0 <= b0 <= 0xEF ->
  (if b0 =? 0xE0 then 0xA0 else 0x80) <= b1 <= (if b0 =? 0xED then 0x9F else 0xBF) ->
  0x80 <= b2 <= 0xBF ->
  EncodeRune ((b0 - 0xE0) * 4096 + (b1 - 0x80) * 64 + (b2 - 0x80))
  = String (byte_of b0) (String (byte_of b1) (str1 (byte_of b2))).
Proof.
  intros H0 H1 H2. unfold EncodeRune.
  destruct (Z.eqb_spec b0 0xE0); destruct (Z.eqb_spec b0 0xED); try lia;
    cmp_cases; unfold str1; repeat f_equal; Z.div_mod_to_equations; lia.
Qed.

Lemma encode_four (b0 b1 b2 b3 : Z) :
  0xF0 <= b0 <= 0xF4 ->
  (if b0 =? 0xF0 then 0x90 else 0x80) <= b1 <= (if b0 =? 0xF4 then 0x8F else 0xBF) ->
  0x80 <= b2 <= 0xBF -> 0x80 <= b3 <= 0xBF ->
  EncodeRune ((b0 - 0xF0) * 262144 + (b1 - 0x80) * 4096 + (b2 - 0x80) * 64
              + (b3 - 0x80))
  = String (byte_of b0) (String (byte_of b1) (String (byte_of b2) (str1 (byte_of b3)))).
Proof.
  intros H0 H1 H2 H3. unfold EncodeRune.
  destruct (Z.eqb_spec b0 0xF0); destruct (Z.eqb_spec b0 0xF4); try lia;
    cmp_cases; unfold str1; repeat f_equal; Z.div_mod_to_equations; lia.
Qed.

(** A rune that is not one of the five escaped characters is written by
    [WriteRune]. *)
Lemma escape_rune_plain (r : rune) (e : Buffer) :
  escape_test r = false -> escape_rune r e = e +:+ EncodeRune r.
Proof.
  unfold escape_test, escape_rune, r_backslash, r_dquote, r_newline, r_return, r_tab.
  intros H. cmp_cases_in H; try discriminate. cmp_cases. reflexivity.
Qed.

Lemma high_rune_tests (r : rune) :
  0x80 <= r -> quote_test r = false /\ escape_test r = false.
Proof.
  intros H.
  unfold quote_test, escape_test, r_backslash, r_dquote, r_newline, r_return,
    r_tab, r_space, r_equals.
  split; cmp_cases; reflexivity.
Qed.

Lemma high_byte_tests (a : ascii) :
  0x80 <= byte_val a ->
  escape_byte a = str1 a /\ needs_quoting a = false /\ needs_escaping a = false.
Proof.
  intros H. unfold escape_byte, needs_quoting, needs_escaping.
  repeat split; cmp_cases; reflexivity.
Qed.

Lemma step_agrees_high (r : rune) (c : string) :
  0x80 <= r -> EncodeRune r = c ->
  string_exists (fun a => byte_val a <? 0x80) c = false ->
  EncodeRune r = c /\ step_agrees r c.
Proof.
  intros Hr Henc Hc. split; [exact Henc|].
  destruct (high_rune_tests r Hr) as [Hq He].
  assert (Hcopy : escaped_copy c = c /\ string_exists needs_quoting c = false
                  /\ string_exists needs_escaping c = false).
  { clear Henc. induction c as [|a c IH]; simpl; [auto|].
    simpl in Hc. apply orb_false_iff in Hc as [Ha Hc].
    apply Z.ltb_ge in Ha.
    destruct (high_byte_tests a Ha) as (E1 & E2 & E3).
    destruct (IH Hc) as (I1 & I2 & I3).
    rewrite E1, E2, E3, I1, I2, I3. auto. }
  destruct Hcopy as (C1 & C2 & C3).
  unfold step_agrees. rewrite C1, C2, C3, Hq, He.
  repeat split. intros e. rewrite escape_rune_plain by exact He.
  now rewrite Henc.
Qed.

Lemma step_agrees_ascii (a : ascii) :
  byte_val a < 0x80 -> step_agrees (byte_val a) (str1 a).
Proof.
  intros Hlt. pose proof (byte_val_range a) as Ha.
  unfold step_agrees, str1. simpl.
  unfold escape_rune, quote_test, escape_test, needs_quoting, needs_escaping,
    escape_byte, WriteByte, WriteString, WriteRune, EncodeRune,
    r_backslash, r_dquote, r_newline, r_return, r_tab, r_space, r_equals.
  repeat split.
  - intros e.
    destruct (Z.eqb_spec (byte_val a) 92) as [E|N1];
      [rewrite E; simpl; rewrite append_assoc; simpl;
       now rewrite <- (byte_of_eq 92 a) by congruence|].
    destruct (Z.eqb_spec (byte_val a) 34) as [E|N2];
      [rewrite E; simpl; rewrite append_assoc; simpl;
       now rewrite <- (byte_of_eq 34 a) by congruence|].
    simpl.
    destruct (Z.eqb_spec (byte_val a) 10) as [E|N3]; [reflexivity|].
    destruct (Z.eqb_spec (byte_val a) 13) as [E|N4]; [reflexivity|].
    destruct (Z.eqb_spec (byte_val a) 9) as [E|N5]; [reflexivity|].
    cmp_cases. now rewrite byte_of_val.
  - now rewrite orb_false_r.
  - now rewrite orb_false_r.
Qed.

(** One decoding step on valid input: the bytes consumed, escaped byte by
    byte, are what the loop body appends for the decoded rune, and the two
    tests agree with their byte-wise counterparts. *)
Lemma decode_step (a : ascii) (s' : string) (r : rune) (w : nat) :
  DecodeRuneInString (String a s') = (r, w) ->
  (r =? RuneError) && (w =? 1)%nat = false ->
  (1 <= w)%nat /\
  EncodeRune r = take_bytes w (String a s') /\
  step_agrees r (take_bytes w (String a s')).
Proof.
  pose proof (byte_val_range a) as Ha.
  unfold DecodeRuneInString.
  destruct (Z.ltb_spec (byte_val a) 0x80) as [Hlt|Hge].
  { intros [= <- <-] _. split; [lia|]. split; [|now apply step_agrees_ascii].
    unfold EncodeRune. cmp_cases. simpl. now rewrite byte_of_val. }
  destruct (Z.ltb_spec (byte_val a) 0xC2) as [?|Hc2]; simpl;
    [intros [= <- <-]; discriminate|].
  destruct (Z.ltb_spec 0xF4 (byte_val a)) as [?|Hf4]; simpl;
    [intros [= <- <-]; discriminate|].
  destruct s' as [|a1 s2]; [intros [= <- <-]; discriminate|].
  pose proof (byte_val_range a1) as Ha1.
  match goal with
  | |- context [if (?x <? ?lo) || (?hi <? ?y) then _ else _] =>
      set (LO := lo); set (HI := hi);
      destruct (Z.ltb_spec x LO) as [?|Hlo]; simpl;
        [intros [= <- <-]; discriminate|];
      destruct (Z.ltb_spec HI y) as [?|Hhi]; simpl;
        [intros [= <- <-]; discriminate|]
  end.
  destruct (Z.ltb_spec (byte_val a) 0xE0) as [He0|He0].
  { (* two bytes *)
    intros [= <- <-] _. split; [lia|].
    assert (0x80 <= byte_val a1 <= 0xBF).
    { subst LO HI. revert Hlo Hhi. cmp_cases; lia. }
    apply step_agrees_high.
    - lia.
    - rewrite encode_two by lia. now rewrite !byte_of_val.
    - simpl. cmp_cases; reflexivity. }
  destruct s2 as [|a2 s3]; [intros [= <- <-]; discriminate|].
  pose proof (byte_val_range a2) as Ha2.
  destruct (Z.ltb_spec (byte_val a2) 0x80) as [?|H2lo]; simpl;
    [intros [= <- <-]; discriminate|].
  destruct (Z.ltb_spec 0xBF (byte_val a2)) as [?|H2hi]; simpl;
    [intros [= <- <-]; discriminate|].
  destruct (Z.ltb_spec (byte_val a) 0xF0) as [Hf0|Hf0].
  { (* three bytes *)
    intros [= <- <-] _. split; [lia|].
    assert (Hb1 : (if byte_val a =? 0xE0 then 0xA0 else 0x80) <= byte_val a1
                  <= (if byte_val a =? 0xED then 0x9F else 0xBF)).
    { subst LO HI. revert Hlo Hhi. cmp_cases; lia. }
    apply step_agrees_high.
    - revert Hb1. cmp_cases; lia.
    - rewrite encode_three; [now rewrite !byte_of_val | lia | exact Hb1 | lia].
    - revert Hb1. simpl. cmp_cases; reflexivity. }
  destruct s3 as [|a3 s4]; [intros [= <- <-]; discriminate|].
  pose proof (byte_val_range a3) as Ha3.
  destruct (Z.ltb_spec (byte_val a3) 0x80) as [?|H3lo]; simpl;
    [intros [= <- <-]; discriminate|].
  destruct (Z.ltb_spec 0xBF (byte_val a3)) as [?|H3hi]; simpl;
    [intros [= <- <-]; discriminate|].
  (* four bytes *)
  intros [= <- <-] _. split; [lia|].
  assert (Hb1 : (if byte_val a =? 0xF0 then 0x90 else 0x80) <= byte_val a1
                <= (if byte_val a =? 0xF4 then 0x8F else 0xBF)).
  { subst LO HI. revert Hlo Hhi. cmp_cases; lia. }
  apply step_agrees_high.
  - revert Hb1. cmp_cases; lia.
  - rewrite encode_four; [now rewrite !byte_of_val | lia | exact Hb1 | lia | lia].
  - revert Hb1. simpl. cmp_cases; reflexivity.
Qed.

(** ** [escapeString] against its specification *)

Lemma scan_step_or (q x : bool) (r : rune) :
  scan_step (q, x) r = (q || quote_test r, x || escape_test r).
Proof.
  unfold scan_step. destruct (quote_test r), (escape_test r), q, x; reflexivity.
Qed.

(** An encoding that fails to decode starts with a byte above the ASCII
    range. *)
Lemma invalid_step (a : ascii) (s' : string) (r : rune) (w : nat) :
  DecodeRuneInString (String a s') = (r, w) ->
  (r =? RuneError) && (w =? 1)%nat = true ->
  r = RuneError /\ w = 1%nat /\ 0x80 <= byte_val a.
Proof.
  intros Hdec Hbad. apply andb_true_iff in Hbad as [Hr Hw].
  apply Z.eqb_eq in Hr. apply Nat.eqb_eq in Hw. subst r w.
  repeat split. unfold DecodeRuneInString in Hdec.
  destruct (Z.ltb_spec (byte_val a) 0x80) as [Hlt|Hge]; [|exact Hge].
  injection Hdec as Hdec. unfold RuneError in Hdec. lia.
Qed.

(** The scan sees a character that needs quotes, or an escape, exactly when
    the string has such a byte: on any string, valid UTF-8 or not. *)
Lemma flags_agree (n : nat) :
  forall (s : string) (q x : bool),
    (String.length s <= n)%nat ->
    fold_left scan_step (range_runes n s) (q, x)
    = (q || string_exists needs_quoting s, x || string_exists needs_escaping s).
Proof.
  induction n as [|n IH]; intros s q x Hlen.
  - destruct s; [|simpl in Hlen; lia]. simpl. now rewrite !orb_false_r.
  - destruct s as [|a s']; [simpl; now rewrite !orb_false_r|].
    assert (Hl : (String.length s' <= n)%nat) by (simpl in Hlen; lia).
    remember (String a s') as s eqn:Es.
    assert (Hunf : range_runes (S n) s
                   = let '(r, w) := DecodeRuneInString s in
                     r :: range_runes n (drop_bytes w s)).
    { rewrite Es. reflexivity. }
    rewrite Hunf. clear Hunf.
    destruct (DecodeRuneInString s) as [r w] eqn:Hdec. rewrite Es in Hdec.
    cbn [fold_left]. rewrite scan_step_or.
    destruct ((r =? RuneError) && (w =? 1)%nat) eqn:Hok.
    + destruct (invalid_step a s' r w Hdec Hok) as (-> & -> & Ha).
      destruct (high_byte_tests a Ha) as (_ & E2 & E3).
      rewrite IH by (rewrite drop_bytes_length, Es; simpl; lia).
      rewrite Es. cbn [drop_bytes string_exists]. rewrite E2, E3.
      change (quote_test RuneError) with false.
      change (escape_test RuneError) with false.
      now rewrite !orb_false_r.
    + destruct (decode_step a s' r w Hdec Hok) as (Hw & _ & _ & Hq & Hx).
      rewrite <- Es in *.
      rewrite IH by (rewrite drop_bytes_length, Es; simpl; lia).
      rewrite Hq, Hx, <- !orb_assoc, <- !string_exists_app.
      now rewrite take_drop_bytes.
Qed.

(** Every byte of the encoding of a rune outside the ASCII range is above
    that range. *)
Lemma EncodeRune_high (r : rune) :
  ~ (0 <= r < 0x80) ->
  string_exists (fun a => byte_val a <? 0x80) (EncodeRune r) = false.
Proof.
  intros Hr. unfold EncodeRune.
  repeat match goal with
  | |- context [if ?c then _ else _] =>
      match c with
      | context [?a <? ?b] => destruct (Z.ltb_spec a b); simpl; try lia
      | context [?a <=? ?b] => destruct (Z.leb_spec a b); simpl; try lia
      end
  end;
  unfold str1; cbn [string_exists];
  rewrite ?byte_val_of by (Z.div_mod_to_equations; lia);
  cmp_cases; try reflexivity; Z.div_mod_to_equations; lia.
Qed.

(** What the loop body appends for a rune is the escaped copy of the
    encoding of that rune. *)
Lemma escape_rune_reencode (r : rune) (e : Buffer) :
  escape_rune r e = e +:+ escaped_copy (EncodeRune r).
Proof.
  destruct (Z.leb_spec 0 r) as [H0|H0]; [destruct (Z.ltb_spec r 0x80) as [H1|H1]|].
  - destruct (step_agrees_ascii (byte_of r)) as [Hesc _].
    + rewrite byte_val_of by lia. exact H1.
    + rewrite byte_val_of in Hesc by lia. rewrite Hesc.
      unfold EncodeRune. cmp_cases. reflexivity.
  - destruct (step_agrees_high r (EncodeRune r) H1 eq_refl) as [_ [Hesc _]];
      [apply EncodeRune_high; lia | apply Hesc].
  - assert (Ht : escape_test r = false).
    { unfold escape_test, r_backslash, r_dquote, r_newline, r_return, r_tab.
      cmp_cases; reflexivity. }
    rewrite escape_rune_plain by exact Ht. f_equal.
    unfold EncodeRune. cmp_cases. reflexivity.
Qed.

Lemma escape_fold (rs : list rune) :
  forall e : Buffer,
    fold_left (fun e r => escape_rune r e) rs e
    = e +:+ escaped_copy (fold_right (fun r acc => EncodeRune r +:+ acc) EmptyString rs).
Proof.
  induction rs as [|r rs IH]; intros e; cbn [fold_left fold_right].
  - now rewrite append_nil_r.
  - rewrite IH, escape_rune_reencode, escaped_copy_app. apply append_assoc.
Qed.

(** [escapeString] on any string: the decision is the one the bytes call
    for, and the rebuilt copy is the escaped copy of the re-encoded
    string. *)
Lemma escapeString_reencodes (s : string) :
  escapeString s
  = if negb (string_exists needs_quoting s) && negb (string_exists needs_escaping s)
    then s
    else if string_exists needs_quoting s
         then str1 (byte_of 34) +:+ escaped_copy (reencode s) +:+ str1 (byte_of 34)
         else escaped_copy (reencode s).
Proof.
  unfold escapeString, scan_flags, runes.
  rewrite (flags_agree _ s false false (Nat.le_refl _)). simpl.
  fold (runes s).
  destruct (string_exists needs_quoting s) eqn:Q,
           (string_exists needs_escaping s) eqn:X; simpl; try reflexivity;
    rewrite escape_fold; fold (reencode s);
    unfold WriteByte, buffPool_Get, r_dquote; try reflexivity.
  simpl. rewrite append_length. simpl.
  replace (String.length (escaped_copy (reencode s)) + 1 - 0)%nat
    with (String.length (escaped_copy (reencode s)) + 1)%nat by lia.
  replace (String.length (escaped_copy (reencode s)) + 1 - 1)%nat
    with (String.length (escaped_copy (reencode s))) by lia.
  apply take_bytes_app.
Qed.

(** Valid UTF-8 is re-encoded to itself. *)
Lemma reencode_valid (n : nat) :
  forall s : string,
    (String.length s <= n)%nat ->
    valid_utf8 n s = true ->
    fold_right (fun r acc => EncodeRune r +:+ acc) EmptyString (range_runes n s) = s.
Proof.
  induction n as [|n IH]; intros s Hlen Hvalid.
  - destruct s; [reflexivity | simpl in Hlen; lia].
  - destruct s as [|a s']; [reflexivity|].
    assert (Hl : (String.length s' <= n)%nat) by (simpl in Hlen; lia).
    remember (String a s') as s eqn:Es.
    assert (Hunf_r : range_runes (S n) s
                     = let '(r, w) := DecodeRuneInString s in
                       r :: range_runes n (drop_bytes w s)).
    { rewrite Es. reflexivity. }
    assert (Hunf_v : valid_utf8 (S n) s
                     = let '(r, w) := DecodeRuneInString s in
                       negb ((r =? RuneError) && (w =? 1)%nat)
                       && valid_utf8 n (drop_bytes w s)).
    { rewrite Es. reflexivity. }
    rewrite Hunf_r. rewrite Hunf_v in Hvalid. clear Hunf_r Hunf_v.
    destruct (DecodeRuneInString s) as [r w] eqn:Hdec.
    apply andb_true_iff in Hvalid as [Hok Hrest].
    apply negb_true_iff in Hok. rewrite Es in Hdec.
    destruct (decode_step a s' r w Hdec Hok) as (Hw & Henc & _).
    rewrite <- Es in *. cbn [fold_right].
    assert (Hd : (String.length (drop_bytes w s) <= n)%nat)
      by (rewrite drop_bytes_length, Es; simpl; lia).
    rewrite (IH _ Hd Hrest).
    rewrite Henc. apply take_drop_bytes.
Qed.


(** The two examples of the specification. *)
Example escapeString_hello : escapeString "hello" = "hello"%string.
Proof. reflexivity. Qed.

Example escapeString_sample :
  escapeString escaping_sample
  = String "034"%char (String "a"%char (String " "%char (String "092"%char
      (String "034"%char (String "b"%char (String "092"%char (String "034"%char
        (String "092"%char (String "t"%char (String "c"%char (str1 "034"%char))))))))))).
Proof. reflexivity. Qed.

(** A backslash alone is escaped, and the result is not quoted. *)
Example escapeString_backslash :
  escapeString (String "a"%char (String "092"%char "b"))
  = String "a"%char (String "092"%char (String "092"%char "b")).
Proof. reflexivity. Qed.



(** ** Numbers *)

Lemma digit_is_digit (d : Z) :
  0 <= d <= 9 -> is_digit (digit d) = true /\ byte_val (digit d) - 48 = d.
Proof.
  intros Hd. unfold is_digit, digit. rewrite byte_val_of by lia.
  split; [|lia]. apply andb_true_iff. split; apply Z.leb_le; lia.
Qed.

Lemma all_digits_app (s t : string) :
  all_digits (s +:+ t) = all_digits s && all_digits t.
Proof.
  induction s as [|a s IH]; simpl; [reflexivity|].
  now rewrite IH, andb_assoc.
Qed.

Lemma read_digits_app (s t : string) (acc : Z) :
  read_digits (s +:+ t) acc = read_digits t (read_digits s acc).
Proof.
  revert acc. induction s as [|a s IH]; intros acc; simpl; [reflexivity|].
  apply IH.
Qed.

Lemma nonempty_app_l (s t : string) : nonempty s = true -> nonempty (s +:+ t) = true.
Proof. destruct s; [discriminate | reflexivity]. Qed.

(** The digit loop, given enough turns, writes the base-10 digits of [u] in
    front of [acc]. *)
Lemma fmt_digits_spec (n : nat) :
  forall (u : Z) (acc : string),
    0 <= u < 2 ^ Z.of_nat (S n) ->
    exists ds, fmt_digits (S n) u acc = ds +:+ acc /\
               nonempty ds = true /\ all_digits ds = true /\
               read_digits ds 0 = u.
Proof.
  induction n as [|n IH]; intros u acc Hu.
  - change (2 ^ Z.of_nat 1) with 2 in Hu.
    exists (str1 (digit u)). simpl.
    destruct (Z.ltb_spec u 10); [|lia].
    destruct (digit_is_digit u ltac:(lia)) as [D1 D2].
    rewrite D1. repeat split. simpl. lia.
  - remember (S n) as m eqn:Em. cbn [fmt_digits].
    destruct (Z.ltb_spec u 10) as [Hlt|Hge].
    + exists (str1 (digit u)).
      destruct (digit_is_digit u ltac:(lia)) as [D1 D2].
      simpl. rewrite D1. repeat split. lia.
    + assert (Hq : 0 <= u / 10 < 2 ^ Z.of_nat m).
      { rewrite (Nat2Z.inj_succ m), Z.pow_succ_r in Hu by lia.
        split; [apply Z.div_pos; lia|].
        apply Z.div_lt_upper_bound; lia. }
      destruct (IH (u / 10) (String (digit (u mod 10)) acc) Hq)
        as (ds & E & N & A & R).
      exists (ds +:+ str1 (digit (u mod 10))).
      pose proof (Z.mod_pos_bound u 10 ltac:(lia)) as Hm.
      destruct (digit_is_digit (u mod 10) ltac:(lia)) as [D1 D2].
      repeat split.
      * rewrite E, append_assoc. reflexivity.
      * now apply nonempty_app_l.
      * rewrite all_digits_app, A. simpl. now rewrite D1.
      * rewrite read_digits_app, R. simpl. rewrite D2.
        pose proof (Z.div_mod u 10 ltac:(lia)). lia.
Qed.

Lemma FormatUint_spec (u : Z) :
  0 <= u ->
  nonempty (FormatUint u) = true /\ all_digits (FormatUint u) = true /\
  read_digits (FormatUint u) 0 = u.
Proof.
  intros Hu. unfold FormatUint.
  destruct (fmt_digits_spec (Z.to_nat (Z.log2 u)) u EmptyString) as (ds & E & N & A & R).
  - rewrite Nat2Z.inj_succ, Z2Nat.id by apply Z.log2_nonneg.
    destruct (Z.eq_dec u 0) as [->|Hnz]; [simpl; lia|].
    pose proof (Z.log2_spec u ltac:(lia)). lia.
  - rewrite E, append_nil_r. auto.
Qed.


Lemma is_digit_range (a : ascii) : is_digit a = true -> 48 <= byte_val a <= 57.
Proof.
  unfold is_digit. intros H. apply andb_true_iff in H as [H1 H2].
  apply Z.leb_le in H1, H2. lia.
Qed.


Lemma pad_digits_spec (p : nat) :
  forall (n : Z) (acc : string),
    exists ds, pad_digits p n acc = ds +:+ acc /\
               all_digits ds = true /\ String.length ds = p.
Proof.
  induction p as [|p IH]; intros n acc.
  - exists EmptyString. repeat split.
  - simpl. destruct (IH (n / 10) (String (digit (n mod 10)) acc)) as (ds & E & A & L).
    exists (ds +:+ str1 (digit (n mod 10))).
    pose proof (Z.mod_pos_bound n 10 ltac:(lia)) as Hm.
    destruct (digit_is_digit (n mod 10) ltac:(lia)) as [D1 _].
    repeat split.
    + rewrite E, append_assoc. reflexivity.
    + rewrite all_digits_app, A. simpl. now rewrite D1.
    + rewrite append_length, L. simpl. lia.
Qed.


Lemma round_half_even_nonneg (num den : Z) :
  0 <= num -> 0 < den -> 0 <= round_half_even num den.
Proof.
  intros Hn Hd. unfold round_half_even.
  pose proof (Z.div_pos num den Hn Hd).
  destruct (_ || _); lia.
Qed.



(** Ties go to the even neighbour: 0.0625 gives 0.062, -0.1875 gives
    -0.188. *)
Example FormatFloat_f_ties :
  FormatFloat_f 3 (S754_finite false 1 (-4)) = "0.062"%string /\
  FormatFloat_f 3 (S754_finite true 3 (-4)) = "-0.188"%string.
Proof. split; reflexivity. Qed.




(** ** Slices: what [append] and the flattening loop do to the store *)

Local Open Scope nat_scope.

Lemma array_at_insert_eq (st : store) (l : loc) (a : list value) :
  array_at (<[l := a]> st) l = a.
Proof. unfold array_at. now rewrite lookup_insert_eq. Qed.

Lemma array_at_insert_ne (st : store) (l l' : loc) (a : list value) :
  l ≠ l' -> array_at (<[l := a]> st) l' = array_at st l'.
Proof. intros H. unfold array_at. now rewrite lookup_insert_ne. Qed.

Lemma array_at_alter_ne (st : store) (l l' : loc) (g : list value -> list value) :
  l ≠ l' -> array_at (alter g l st) l' = array_at st l'.
Proof. intros H. unfold array_at. now rewrite lookup_alter_ne. Qed.

Lemma array_at_alter_eq (st : store) (l : loc) (g : list value -> list value) :
  g [] = [] -> array_at (alter g l st) l = g (array_at st l).
Proof.
  intros Hg. unfold array_at. rewrite lookup_alter_eq.
  destruct (st !! l); simpl; [reflexivity | now rewrite Hg].
Qed.

Lemma array_at_fresh (st : store) : array_at st (fresh (dom st)) = [].
Proof.
  unfold array_at.
  assert (H : st !! fresh (dom st) = None).
  { apply not_elem_of_dom. apply is_fresh. }
  now rewrite H.
Qed.

Lemma slice_elems_length (st : store) (s : slice) :
  slice_wf st s -> length (slice_elems st s) = s_len s.
Proof.
  intros [H1 H2]. unfold slice_elems. rewrite length_take, length_drop. lia.
Qed.

(** A new array leaves the elements of every well-formed slice as they
    were. *)
Lemma slice_elems_alloc (st : store) (s : slice) (a : list value) :
  slice_wf st s ->
  slice_elems (<[fresh (dom st) := a]> st) s = slice_elems st s.
Proof.
  intros [H1 H2]. unfold slice_elems.
  destruct (decide (s_arr s = fresh (dom st))) as [E|N].
  - rewrite E in *. rewrite array_at_fresh in H2. simpl in H2.
    assert (s_len s = 0) as -> by lia. reflexivity.
  - now rewrite array_at_insert_ne by congruence.
Qed.

Lemma slice_literal_spec (st : store) (xs : list value) :
  slice_elems (slice_literal st xs).1 (slice_literal st xs).2 = xs /\
  slice_wf (slice_literal st xs).1 (slice_literal st xs).2.
Proof.
  unfold slice_literal, slice_elems, slice_wf. simpl.
  rewrite array_at_insert_eq. rewrite drop_0, take_ge by lia.
  repeat split; lia.
Qed.

Lemma write_at_length (i : nat) (xs a : list value) :
  i + length xs <= length a -> length (write_at i xs a) = length a.
Proof.
  intros H. unfold write_at.
  rewrite !length_app, length_take, length_drop. lia.
Qed.

Section Append.

Context {env : GoEnv}.

(** [append] yields a slice whose elements are those of [s] followed by
    [xs], whatever the capacity of [s]. *)
Lemma append_spec (st : store) (s : slice) (xs : list value) :
  slice_wf st s ->
  slice_elems (append st s xs).1 (append st s xs).2 = slice_elems st s ++ xs /\
  slice_wf (append st s xs).1 (append st s xs).2.
Proof.
  intros Hwf. pose proof (slice_elems_length st s Hwf) as Hlen.
  destruct Hwf as [H1 H2].
  unfold append. destruct xs as [|x xs'].
  { simpl. rewrite app_nil_r. repeat split; assumption. }
  set (xs := x :: xs') in *.
  destruct (Nat.leb_spec (s_len s + length xs) (s_cap s)) as [Hfit|Hgrow].
  - (* in place *)
    cbn [fst snd]. unfold slice_elems, slice_wf. cbn [s_arr s_off s_len s_cap].
    assert (Hsome : is_Some (st !! s_arr s)).
    { unfold array_at in H2. destruct (st !! s_arr s); [eauto|].
      simpl in H2. subst xs. simpl in Hfit. lia. }
    assert (Harr : array_at (alter (write_at (s_off s + s_len s) xs) (s_arr s) st) (s_arr s)
                   = write_at (s_off s + s_len s) xs (array_at st (s_arr s))).
    { unfold array_at. rewrite lookup_alter_eq.
      destruct Hsome as [a ->]. reflexivity. }
    rewrite Harr. split.
    + unfold write_at.
      rewrite drop_app_le by (rewrite length_take; lia).
      rewrite <- take_drop_commute.
      rewrite (app_assoc _ xs).
      rewrite take_app_length'.
      * reflexivity.
      * rewrite length_app, length_take, length_drop. lia.
    + rewrite write_at_length by lia. split; lia.
  - (* a new array *)
    cbn [fst snd]. unfold slice_wf. cbn [s_arr s_off s_len s_cap].
    unfold slice_elems at 1. cbn [s_arr s_off s_len s_cap].
    rewrite array_at_insert_eq, drop_0. split.
    + rewrite app_assoc. rewrite take_app_length'; [reflexivity|].
      rewrite length_app. lia.
    + rewrite !length_app, length_replicate. split; lia.
Qed.

End Append.

(** The flattening loop on an array: the window of the slice is mapped,
    the rest is left alone. *)
Lemma flatten_array (f : value -> value) (off n : nat) (a : list value) :
  forall i : nat,
    fold_left (fun a idx => alter f (off + idx) a) (seq 0 n) a !! i
    = if decide (off <= i < off + n) then f <$> a !! i else a !! i.
Proof.
  induction n as [|n IH]; intros i.
  - simpl. destruct (decide _); [lia | reflexivity].
  - rewrite seq_S, fold_left_app. simpl.
    destruct (decide (off + n = i)) as [<-|Hne].
    + rewrite list_lookup_alter_eq, IH.
      destruct (decide (off <= off + n < off + n)); [lia|].
      destruct (decide (off <= off + n < off + S n)); [reflexivity | lia].
    + rewrite list_lookup_alter_ne by exact Hne. rewrite IH.
      destruct (decide (off <= i < off + n)), (decide (off <= i < off + S n));
        try reflexivity; lia.
Qed.

Lemma flatten_store (st : store) (s : slice) (f : value -> value) (n : nat) :
  fold_left (fun st idx => slice_update st s idx f) (seq 0 n) st
  = alter (fun a => fold_left (fun a idx => alter f (s_off s + idx) a) (seq 0 n) a)
          (s_arr s) st.
Proof.
  induction n as [|n IH].
  - simpl. symmetry. apply alter_id. reflexivity.
  - rewrite seq_S, !fold_left_app. simpl. rewrite IH.
    unfold slice_update. rewrite alter_alter_eq. apply alter_ext.
    intros a _. simpl. now rewrite fold_left_app.
Qed.

Lemma flatten_array_nil (f : value -> value) (off n : nat) :
  fold_left (fun a idx => alter f (off + idx) a) (seq 0 n) [] = [].
Proof.
  apply list_eq. intros i. rewrite flatten_array.
  destruct (decide _); reflexivity.
Qed.

Section Flatten.

Context {env : GoEnv}.

(** After the first loop of [JSONFormat] the slice holds the [%+v] text of
    each of its elements. *)
Lemma flatten_ContextList_elems (st : store) (s : slice) :
  slice_wf st s ->
  slice_elems (flatten_ContextList st s) s = flatten <$> slice_elems st s.
Proof.
  intros [H1 H2]. unfold flatten_ContextList, slice_elems.
  rewrite flatten_store.
  rewrite array_at_alter_eq by apply flatten_array_nil.
  apply list_eq. intros i.
  rewrite list_lookup_fmap.
  destruct (decide (i < s_len s)) as [Hi|Hi].
  - rewrite !lookup_take_lt, !lookup_drop, flatten_array by lia.
    destruct (decide _); [reflexivity | lia].
  - rewrite !lookup_take_ge by lia. reflexivity.
Qed.

Lemma flatten_ContextList_wf (st : store) (s t : slice) :
  slice_wf st t -> slice_wf (flatten_ContextList st s) t.
Proof.
  intros [H1 H2]. unfold flatten_ContextList. rewrite flatten_store.
  split; [exact H1|].
  destruct (decide (s_arr s = s_arr t)) as [E|N].
  - rewrite <- E. rewrite array_at_alter_eq by apply flatten_array_nil.
    assert (L : forall a n, length (fold_left (fun a idx => alter flatten (s_off s + idx) a)
                                               (seq 0 n) a) = length a).
    { intros a n. induction n as [|n IH]; [reflexivity|].
      rewrite seq_S, fold_left_app. simpl. now rewrite length_alter. }
    rewrite L. now rewrite E.
  - now rewrite array_at_alter_ne.
Qed.

Lemma flatten_ContextList_frame (st : store) (s t : slice) :
  separate s t ->
  slice_elems (flatten_ContextList st s) t = slice_elems st t.
Proof.
  intros Hsep. unfold flatten_ContextList, slice_elems. rewrite flatten_store.
  destruct (decide (s_arr s = s_arr t)) as [E|N].
  - destruct Hsep as [Hsep|Hsep]; [congruence|].
    rewrite <- E. rewrite array_at_alter_eq by apply flatten_array_nil.
    apply list_eq. intros i.
    destruct (decide (i < s_len t)) as [Hi|Hi].
    + rewrite !lookup_take_lt, !lookup_drop, flatten_array by lia.
      destruct (decide _); [lia | reflexivity].
    + rewrite !lookup_take_ge by lia. reflexivity.
  - now rewrite array_at_alter_ne.
Qed.

End Flatten.

Local Close Scope nat_scope.

(** ** The field list of the JSON and LogFmt formatters *)

Section FieldList.

Context {env : GoEnv}.

Lemma append_len (st : store) (s : slice) (xs : list value) :
  s_len (append st s xs).2 = (s_len s + length xs)%nat.
Proof.
  unfold append. destruct xs as [|x xs]; [simpl; lia|].
  destruct (_ <=? _)%nat; reflexivity.
Qed.

(** The three statements every formatter but Simple starts with: the
    context, then the pairs, behind the three default fields. *)
Lemma prepend_defaults (st : store) (cl p : slice) (defaults : list value) :
  slice_wf st cl ->
  forall st1 p1 st2 lit st3 p3,
    append_slice st cl p = (st1, p1) ->
    slice_literal st1 defaults = (st2, lit) ->
    append_slice st2 lit p1 = (st3, p3) ->
    slice_elems st3 p3 = defaults ++ slice_elems st cl ++ slice_elems st p /\
    slice_wf st3 p3 /\
    s_len p3 = (length defaults + (s_len cl + length (slice_elems st p)))%nat.
Proof.
  intros Hwf st1 p1 st2 lit st3 p3 E1 E2 E3.
  unfold append_slice in E1, E3.
  destruct (append_spec st cl (slice_elems st p) Hwf) as [A1 W1].
  pose proof (append_len st cl (slice_elems st p)) as L1.
  rewrite E1 in A1, W1, L1. simpl in A1, W1, L1.
  destruct (slice_literal_spec st1 defaults) as [A2 W2].
  rewrite E2 in A2, W2. simpl in A2, W2.
  assert (F : slice_elems st2 p1 = slice_elems st1 p1).
  { unfold slice_literal in E2. injection E2 as <- <-.
    now apply slice_elems_alloc. }
  destruct (append_spec st2 lit (slice_elems st2 p1) W2) as [A3 W3].
  pose proof (append_len st2 lit (slice_elems st2 p1)) as L3.
  rewrite E3 in A3, W3, L3. simpl in A3, W3, L3.
  rewrite A3, A2, F, A1. split; [reflexivity|]. split; [exact W3|].
  rewrite L3, F, A1, length_app.
  unfold slice_literal in E2. injection E2 as <- <-. simpl.
  rewrite (slice_elems_length st cl Hwf). lia.
Qed.

Lemma logfmt_assemble_fields (record : LogRecord) (st : store) :
  slice_wf st (ContextList record) ->
  fields_of (logfmt_assemble record st)
  = default_fields record ++ slice_elems st (ContextList record)
    ++ slice_elems st (Pairs record) ++ flat (callsite_kvs record).
Proof.
  intros Hwf. unfold fields_of, logfmt_assemble, callsite_kvs.
  destruct (append_slice st _ _) as [st1 p1] eqn:E1.
  destruct (slice_literal st1 _) as [st2 lit] eqn:E2.
  destruct (append_slice st2 _ _) as [st3 p3] eqn:E3.
  destruct (prepend_defaults _ _ _ _ Hwf _ _ _ _ _ _ E1 E2 E3) as (A & W & _).
  destruct (0 <? Line record).
  - destruct (append_spec st3 p3 (callsite_fields record) W) as [A4 _].
    rewrite A4, A. now rewrite <- !app_assoc.
  - simpl. now rewrite A, !app_nil_r.
Qed.

Lemma json_assemble_fields (record : LogRecord) (st : store) :
  slice_wf st (ContextList record) ->
  separate (ContextList record) (Pairs record) ->
  fields_of (json_assemble record st)
  = default_fields record ++ (flatten <$> slice_elems st (ContextList record))
    ++ slice_elems st (Pairs record) ++ flat (callsite_kvs record).
Proof.
  intros Hwf Hsep. unfold fields_of, json_assemble, callsite_kvs.
  pose proof (flatten_ContextList_wf st (ContextList record) _ Hwf) as Hwf0.
  rewrite <- (flatten_ContextList_elems st _ Hwf).
  rewrite <- (flatten_ContextList_frame st _ _ Hsep).
  set (st0 := flatten_ContextList st (ContextList record)) in *.
  destruct (append_slice st0 _ _) as [st1 p1] eqn:E1.
  destruct (slice_literal st1 _) as [st2 lit] eqn:E2.
  destruct (append_slice st2 _ _) as [st3 p3] eqn:E3.
  destruct (prepend_defaults _ _ _ _ Hwf0 _ _ _ _ _ _ E1 E2 E3) as (A & W & _).
  destruct (0 <? Line record).
  - destruct (append_spec st3 p3 (callsite_fields record) W) as [A4 _].
    rewrite A4, A. now rewrite <- !app_assoc.
  - simpl. now rewrite A, !app_nil_r.
Qed.

(** What one turn of the LogFmt loop appends when the key is a string. *)
Lemma logfmt_pair_string (k : string) (v : value) (buf : Buffer) :
  logfmt_pair (VString k) v buf
  = buf +:+ k +:+ String "="%char (formatLogfmtValue v).
Proof.
  unfold logfmt_pair, WriteString, WriteByte, r_equals. simpl.
  now rewrite !append_assoc.
Qed.

(** The LogFmt loop only ever adds to its buffer. *)
Lemma logfmt_loop_extends :
  forall (n : nat) (pairs : list value) (first : bool) (buf out : Buffer),
    (length pairs <= n)%nat ->
    logfmt_loop first pairs buf = Returns out ->
    exists rest, out = buf +:+ rest.
Proof.
  induction n as [|n IH]; intros pairs first buf out Hn Hrun.
  - destruct pairs; [|simpl in Hn; lia]. simpl in Hrun.
    injection Hrun as <-. exists EmptyString. now rewrite append_nil_r.
  - destruct pairs as [|x [|y pairs]].
    + simpl in Hrun. injection Hrun as <-. exists EmptyString.
      now rewrite append_nil_r.
    + simpl in Hrun. discriminate.
    + cbn [logfmt_loop] in Hrun. apply IH in Hrun; [|simpl in Hn; lia].
      destruct Hrun as [rest ->].
      unfold logfmt_pair.
      destruct (assert_string x) as [k ok].
      destruct (if negb ok then _ else _) as [k' v'].
      unfold WriteString, WriteByte.
      destruct first; rewrite !append_assoc; eauto.
Qed.

(** C6 (amended).  The field list assembled by the LogFmt formatter is
    ts, lvl, msg, then the staticContext entries, then the dynamicPairs
    entries, then file, line exactly when the line is positive; the list of
    the JSON formatter is the same with every staticContext entry replaced
    by its [%+v] text; and every line the LogFmt formatter returns starts
    with the ts, lvl and msg pairs. *)
Theorem field_list_order (record : LogRecord) (st : store) :
  slice_wf st (ContextList record) ->
  separate (ContextList record) (Pairs record) ->
  fields_of (logfmt_assemble record st)
  = flat (default_kvs record) ++ slice_elems st (ContextList record)
    ++ slice_elems st (Pairs record) ++ flat (callsite_kvs record)
  /\
  fields_of (json_assemble record st)
  = flat (default_kvs record) ++ (flatten <$> slice_elems st (ContextList record))
    ++ slice_elems st (Pairs record) ++ flat (callsite_kvs record)
  /\
  forall out, (LogFmtFormat record st).2 = Returns out ->
    exists rest,
      out = "ts=" +:+ Time_Format (Time record)
            +:+ " lvl=" +:+ escapeString (Level_String (Level record))
            +:+ " msg=" +:+ escapeString (Message record) +:+ rest.
Proof.
  intros Hwf Hsep. split; [|split].
  - now apply logfmt_assemble_fields.
  - now apply json_assemble_fields.
  - intros out Hout. unfold LogFmtFormat in Hout.
    pose proof (logfmt_assemble_fields record st Hwf) as Hf.
    unfold fields_of in Hf.
    destruct (logfmt_assemble record st) as [st' pairs]. simpl in Hf.
    rewrite Hf in Hout. clear Hf.
    cbn [default_fields app logfmt_loop] in Hout.
    rewrite !logfmt_pair_string in Hout.
    destruct (logfmt_loop false _ _) as [buf|] eqn:Hloop; [|discriminate].
    simpl in Hout. injection Hout as <-.
    apply (logfmt_loop_extends _ _ _ _ _ (Nat.le_refl _)) in Hloop.
    destruct Hloop as [rest ->].
    exists (rest +:+ str1 (byte_of r_newline)).
    unfold WriteByte, buffPool_Get, r_space. simpl.
    repeat (rewrite ?append_assoc; simpl). reflexivity.
Qed.

End FieldList.

(** ** Every pair is emitted, in sequence *)

Lemma flat_app (a b : list (string * value)) : flat (a ++ b) = flat a ++ flat b.
Proof.
  induction a as [|[k v] a IH]; simpl; [reflexivity | now rewrite IH].
Qed.

Lemma unwords_cons (x y : string) (l : list string) :
  unwords (x :: y :: l) = x +:+ String " "%char (unwords (y :: l)).
Proof. reflexivity. Qed.

Section PairsEmitted.

Context {env : GoEnv}.

Lemma logfmt_loop_flat (kvs : list (string * value)) :
  forall (first : bool) (buf : Buffer),
    logfmt_loop first (flat kvs) buf
    = Returns match kvs with
              | [] => buf
              | _ :: _ => (if first then buf else buf +:+ " ")
                          +:+ unwords (map logfmt_kv kvs)
              end.
Proof.
  induction kvs as [|[k v] kvs IH]; intros first buf; [reflexivity|].
  cbn [flat logfmt_loop]. rewrite logfmt_pair_string, IH.
  f_equal. unfold WriteByte, r_space.
  change (str1 (byte_of 32)) with " "%string.
  set (b := if first then buf else buf +:+ " ").
  destruct kvs as [|kv kvs'].
  - cbn [map]. unfold unwords, logfmt_kv. simpl.
    repeat (rewrite ?append_assoc; simpl). reflexivity.
  - cbn [map]. rewrite unwords_cons.
    change (logfmt_kv (k, v)) with (k +:+ String "="%char (formatLogfmtValue v)).
    repeat (rewrite ?append_assoc; cbn [String.append]). reflexivity.
Qed.

Lemma terminal_loop_step (k : string) (v : value) (rest : list value)
    (buff : Buffer) :
  terminal_loop (VString k :: v :: rest) buff
  = terminal_loop rest
      match rest with
      | [] => buff +:+ terminal_kv (k, v)
      | _ :: _ => buff +:+ terminal_kv (k, v) +:+ " "
      end.
Proof.
  cbn [terminal_loop]. unfold terminal_kv, WriteRune, WriteString.
  cbn [fst snd].
  change (EncodeRune r_dquote) with (str1 (byte_of r_dquote)).
  change (EncodeRune r_equals) with "="%string.
  change (EncodeRune r_space) with " "%string.
  destruct (existsb needsQuote (runes k) || (k =? EmptyString)%string);
    destruct rest; f_equal;
    repeat (rewrite ?append_assoc; cbn [String.append str1]); reflexivity.
Qed.

Lemma terminal_loop_flat (kvs : list (string * value)) :
  forall buff : Buffer,
    terminal_loop (flat kvs) buff
    = Returns (buff +:+ unwords (map terminal_kv kvs)).
Proof.
  induction kvs as [|[k v] kvs IH]; intros buff.
  - simpl. now rewrite append_nil_r.
  - cbn [flat]. rewrite terminal_loop_step, IH. f_equal.
    destruct kvs as [|[k' v'] kvs'].
    + cbn [flat map]. unfold unwords. cbn [String.concat].
      now rewrite append_nil_r.
    + cbn [flat map]. rewrite unwords_cons.
      repeat (rewrite ?append_assoc; cbn [String.append]). reflexivity.
Qed.

Lemma json_fill_flat (kvs : list (string * value)) :
  forall tmpMap : gmap string value,
    json_fill (flat kvs) tmpMap
    = Returns (fold_left (fun m kv => <[kv.1 := kv.2]> m) kvs tmpMap).
Proof.
  induction kvs as [|[k v] kvs IH]; intros tmpMap; [reflexivity|].
  cbn [flat json_fill]. now rewrite IH.
Qed.

(** Filling the map keeps, for every key, the value of its last pair. *)
Lemma fill_lookup (k : string) (kvs : list (string * value)) :
  forall (m : gmap string value) (acc : option value),
    m !! k = acc ->
    fold_left (fun m kv => <[kv.1 := kv.2]> m) kvs m !! k
    = fold_left (fun acc kv => if String.eqb kv.1 k then Some kv.2 else acc) kvs acc.
Proof.
  induction kvs as [|[k1 v1] kvs IH]; intros m acc Hm; [exact Hm|].
  cbn [fold_left]. apply IH. simpl.
  destruct (String.eqb_spec k1 k) as [->|Hne].
  - apply lookup_insert_eq.
  - now rewrite lookup_insert_ne.
Qed.

Lemma flatten_flat (kvs : list (string * value)) :
  flatten <$> flat kvs = flat (map flatten_kv kvs).
Proof.
  induction kvs as [|[k v] kvs IH]; [reflexivity|].
  cbn [flat map fmap list_fmap]. f_equal. f_equal. exact IH.
Qed.

(** C4 (amended).  For an event whose fields have string keys, equal keys
    or not: the LogFmt formatter emits one entry per pair, in sequence; so
    does the Terminal formatter; the JSON formatter hands its encoder a
    mapping that keeps, for every key, only the value of the last pair with
    that key. *)
Theorem pairs_emitted (theme : Theme) (pretty : bool) (record : LogRecord)
    (st : store) (static dynamic : list (string * value)) :
  slice_wf st (ContextList record) ->
  separate (ContextList record) (Pairs record) ->
  slice_elems st (ContextList record) = flat static ->
  slice_elems st (Pairs record) = flat dynamic ->
  (LogFmtFormat record st).2
  = Returns (unwords (map logfmt_kv (default_kvs record ++ static ++ dynamic
                                     ++ callsite_kvs record))
             +:+ str1 (byte_of r_newline))
  /\
  (0 <= levelNameMaxLength
        - Z.of_nat (String.length (Level_String (Level record))) + 2 ->
   (ThemedTerminalFormat theme record st).2
   = Returns (ForLevel theme (Level record) (Level_String (Level record))
              +:+ spaces (levelNameMaxLength
                          - Z.of_nat (String.length (Level_String (Level record))) + 2)
              +:+ " " +:+ Message record +:+ " ["
              +:+ unwords (map terminal_kv (default_kvs record ++ static ++ dynamic))
              +:+ "]" +:+ str1 (byte_of r_newline)))
  /\
  exists tmpMap : gmap string value,
    (JSONFormat pretty record st).2 = Returns (json_serialize pretty tmpMap) /\
    forall k, tmpMap !! k
              = last_value k (default_kvs record ++ map flatten_kv static
                              ++ dynamic ++ callsite_kvs record).
Proof.
  intros Hwf Hsep Hs Hd. split; [|split].
  - unfold LogFmtFormat.
    pose proof (logfmt_assemble_fields record st Hwf) as Hf.
    unfold fields_of in Hf.
    destruct (logfmt_assemble record st) as [st' pairs]. cbn [fst snd] in Hf.
    rewrite Hf, Hs, Hd.
    change (default_fields record) with (flat (default_kvs record)).
    rewrite <- !flat_app, logfmt_loop_flat. reflexivity.
  - intros Hpad. unfold ThemedTerminalFormat.
    destruct (Z.ltb_spec (levelNameMaxLength
        - Z.of_nat (String.length (Level_String (Level record))) + 2) 0); [lia|].
    destruct (append_slice st _ _) as [st1 p1] eqn:E1.
    destruct (slice_literal st1 _) as [st2 lit] eqn:E2.
    destruct (append_slice st2 _ _) as [st3 p3] eqn:E3.
    destruct (prepend_defaults _ _ _ _ Hwf _ _ _ _ _ _ E1 E2 E3) as (A & W & L).
    rewrite A, Hs, Hd.
    change (default_fields record) with (flat (default_kvs record)).
    rewrite <- !flat_app, terminal_loop_flat.
    assert (Hpos : (0 <? s_len p3)%nat = true).
    { apply Nat.ltb_lt. rewrite L. simpl. lia. }
    rewrite Hpos. cbn [snd]. f_equal.
    unfold WriteString, WriteRune, buffPool_Get. simpl.
    repeat (rewrite ?append_assoc; simpl). reflexivity.
  - unfold JSONFormat.
    pose proof (json_assemble_fields record st Hwf Hsep) as Hf.
    unfold fields_of in Hf.
    destruct (json_assemble record st) as [st' pairs]. cbn [fst snd] in Hf.
    rewrite Hf, Hs, Hd, flatten_flat.
    change (default_fields record) with (flat (default_kvs record)).
    rewrite <- !flat_app, json_fill_flat.
    eexists. split; [reflexivity|].
    intros k. unfold last_value. apply fill_lookup. apply lookup_empty.
Qed.

End PairsEmitted.

(** ** The Simple formatter *)

(** C10.  The Simple formatter writes the bracketed location exactly when
    the file is not empty and the line is positive, and in both cases a
    space after the message: without a call site the line is the time, a
    space, the message, a space and the newline. *)
Theorem SimpleFormat_location (env : GoEnv) (record : LogRecord) (st : store) :
  (File record <> EmptyString /\ 0 < Line record ->
   SimpleFormat record st
   = (st, Returns (Time_Format (Time record) +:+ " " +:+ Message record
                   +:+ " [" +:+ File record +:+ ":" +:+ Itoa (Line record)
                   +:+ "]" +:+ str1 (byte_of r_newline))))
  /\
  (~ (File record <> EmptyString /\ 0 < Line record) ->
   SimpleFormat record st
   = (st, Returns (Time_Format (Time record) +:+ " " +:+ Message record
                   +:+ " " +:+ str1 (byte_of r_newline)))).
Proof.
  unfold SimpleFormat, WriteString, WriteRune, buffPool_Get.
  change (EncodeRune r_space) with " "%string.
  change (EncodeRune 91) with "["%string.
  change (EncodeRune 58) with ":"%string.
  change (EncodeRune 93) with "]"%string.
  change (EncodeRune r_newline) with (str1 (byte_of r_newline)).
  destruct (String.eqb_spec (File record) EmptyString) as [E|N];
    destruct (Z.ltb_spec 0 (Line record)) as [L|L]; cbn [negb andb];
    (split; [intros [H1 H2] | intros H]);
    try congruence; try lia; try (exfalso; apply H; split; assumption);
    repeat (rewrite ?append_assoc; cbn [String.append]); reflexivity.
Qed.

Lemma SimpleFormat_location_witness :
  ~ (File nofile_record <> EmptyString /\ 0 < Line nofile_record) /\
  (@SimpleFormat demoEnv nofile_record ∅).2
  = Returns ("2021-03-04T05:06:07.000000008Z hi " +:+ str1 (byte_of r_newline)).
Proof.
  assert (H : ~ (File nofile_record <> EmptyString /\ 0 < Line nofile_record)).
  { intros [H _]. apply H. reflexivity. }
  split; [exact H|].
  rewrite (proj2 (SimpleFormat_location demoEnv nofile_record ∅) H).
  reflexivity.
Defined.

(** ** Keys that are not strings *)

(** C1.  At the pair (42, x) the LogFmt formatter writes the sentinel key
    with an empty value: the line ends in [PARSE_ERROR=], not in
    [PARSE_ERROR=42].  The value encoded is the variable [k], which holds
    the zero value of [string] after the failed assertion, whatever the key
    and the value of the pair were. *)
Theorem LogFmtFormat_nonstring_key_value_lost (env : GoEnv) :
  (LogFmtFormat badkey_record badkey_store).2
  = Returns ("ts=" +:+ Time_Format sample_time
             +:+ " lvl=" +:+ escapeString (Level_String 1)
             +:+ " msg=hi PARSE_ERROR=" +:+ str1 (byte_of r_newline))
  /\
  forall (x y : value) (buf : Buffer),
    match x with
    | VString _ => True
    | _ => logfmt_pair x y buf = buf +:+ "PARSE_ERROR="
    end.
Proof.
  split.
  - unfold LogFmtFormat.
    pose proof (logfmt_assemble_fields badkey_record badkey_store) as Hf.
    unfold fields_of in Hf.
    destruct (logfmt_assemble badkey_record badkey_store) as [st' pairs].
    cbn [fst snd] in Hf. rewrite Hf by (split; simpl; lia).
    replace (slice_elems badkey_store (ContextList badkey_record))
      with (@nil value) by (vm_compute; reflexivity).
    replace (slice_elems badkey_store (Pairs badkey_record))
      with [VInt KInt 42; VString "x"] by (vm_compute; reflexivity).
    cbn. unfold WriteByte, WriteString.
    repeat (rewrite ?append_assoc; cbn [String.append str1]). reflexivity.
  - intros x y buf.
    destruct x; try exact I;
      unfold logfmt_pair, WriteByte, WriteString; cbn;
      repeat (rewrite ?append_assoc; cbn [String.append str1]); reflexivity.
Qed.

(** C2.  On an event whose dynamic pair has the integer key 42 the JSON
    formatter and the Terminal formatter panic at their type assertion (the
    Terminal formatter possibly earlier, at its padding): [Format] does not
    return. *)
Theorem Format_panics_on_nonstring_key (env : GoEnv) (theme : Theme)
    (pretty : bool) :
  (JSONFormat pretty badkey_record badkey_store).2 = Panics TypeAssertion /\
  exists p, (ThemedTerminalFormat theme badkey_record badkey_store).2 = Panics p.
Proof.
  split.
  - unfold JSONFormat.
    pose proof (json_assemble_fields badkey_record badkey_store) as Hf.
    unfold fields_of in Hf.
    destruct (json_assemble badkey_record badkey_store) as [st' pairs].
    cbn [fst snd] in Hf.
    rewrite Hf by (try split; try left; simpl; try lia; discriminate).
    replace (slice_elems badkey_store (ContextList badkey_record))
      with (@nil value) by (vm_compute; reflexivity).
    replace (slice_elems badkey_store (Pairs badkey_record))
      with [VInt KInt 42; VString "x"] by (vm_compute; reflexivity).
    reflexivity.
  - unfold ThemedTerminalFormat.
    destruct (_ <? 0); [eexists; reflexivity|].
    destruct (append_slice badkey_store _ _) as [st1 p1] eqn:E1.
    destruct (slice_literal st1 _) as [st2 lit] eqn:E2.
    destruct (append_slice st2 _ _) as [st3 p3] eqn:E3.
    assert (Hwf : slice_wf badkey_store (ContextList badkey_record))
      by (split; simpl; lia).
    destruct (prepend_defaults _ _ _ _ Hwf _ _ _ _ _ _ E1 E2 E3) as (A & _ & _).
    rewrite A.
    replace (slice_elems badkey_store (ContextList badkey_record))
      with (@nil value) by (vm_compute; reflexivity).
    replace (slice_elems badkey_store (Pairs badkey_record))
      with [VInt KInt 42; VString "x"] by (vm_compute; reflexivity).
    eexists. reflexivity.
Qed.

(** ** The store after [Format] *)

(** C3.  The JSON formatter overwrites the static context of the event in
    its backing array: [n=42 k=nil] reads [n="42" k="<nil>"] (strings)
    afterwards, and the LogFmt line of the same event changes with it.  The
    LogFmt and Simple formatters leave the elements of that static context
    as they were.  But [append(record.ContextList, record.Pairs...)], which
    the Terminal, JSON and LogFmt formatters start with, writes the dynamic
    pairs into the backing array when the static context has capacity to
    spare: a static context of another logger that extends over those
    elements is overwritten. *)
Theorem JSONFormat_overwrites_ContextList (env : GoEnv) (pretty : bool) :
  let st' := (JSONFormat pretty static_record static_store).1 in
  slice_elems static_store (ContextList static_record)
  = [VString "n"; VInt KInt 42; VString "k"; VNil] /\
  slice_elems st' (ContextList static_record)
  = [VString "n"; VString "42"; VString "k"; VString "<nil>"] /\
  (LogFmtFormat static_record static_store).2
  = Returns ("ts=" +:+ Time_Format sample_time
             +:+ " lvl=" +:+ escapeString (Level_String 1)
             +:+ " msg=hi n=42 k=nil" +:+ str1 (byte_of r_newline)) /\
  (LogFmtFormat static_record st').2
  = Returns ("ts=" +:+ Time_Format sample_time
             +:+ " lvl=" +:+ escapeString (Level_String 1)
             +:+ " msg=hi n=42 k=<nil>" +:+ str1 (byte_of r_newline)) /\
  slice_elems (LogFmtFormat static_record static_store).1 (ContextList static_record)
  = slice_elems static_store (ContextList static_record) /\
  slice_elems (SimpleFormat static_record static_store).1 (ContextList static_record)
  = slice_elems static_store (ContextList static_record) /\
  slice_elems shared_store child_context
  = [VString "app"; VString "web"; VString "svc"; VString "db"] /\
  slice_elems (LogFmtFormat parent_record shared_store).1 child_context
  = [VString "app"; VString "web"; VString "user"; VInt KInt 7].
Proof.
  cbv zeta.
  assert (Hspare : slice_elems (LogFmtFormat parent_record shared_store).1
                     child_context
                   = [VString "app"; VString "web"; VString "user"; VInt KInt 7]).
  { unfold LogFmtFormat.
    destruct (logfmt_assemble parent_record shared_store) as [st1 pairs] eqn:E.
    assert (Est : st1 = (logfmt_assemble parent_record shared_store).1)
      by now rewrite E.
    destruct (logfmt_loop true _ _); cbn [fst]; rewrite Est;
      vm_compute; reflexivity. }
  assert (Hsib : slice_elems (LogFmtFormat static_record static_store).1
                   (ContextList static_record)
                 = slice_elems static_store (ContextList static_record) /\
                 slice_elems (SimpleFormat static_record static_store).1
                   (ContextList static_record)
                 = slice_elems static_store (ContextList static_record)).
  { split; [|reflexivity].
    unfold LogFmtFormat.
    destruct (logfmt_assemble static_record static_store) as [st1 pairs] eqn:E.
    assert (Est : st1 = (logfmt_assemble static_record static_store).1)
      by now rewrite E.
    destruct (logfmt_loop true _ _); cbn [fst]; rewrite Est;
      vm_compute; reflexivity. }
  assert (Hst : slice_elems (JSONFormat pretty static_record static_store).1
                  (ContextList static_record)
                = [VString "n"; VString "42"; VString "k"; VString "<nil>"]
                /\ slice_wf (JSONFormat pretty static_record static_store).1
                     (ContextList static_record)).
  { unfold JSONFormat. destruct pretty; vm_compute; repeat split; lia. }
  destruct Hst as [Hst Hwf'].
  split; [reflexivity|]. split; [exact Hst|].
  split; [|split; [|split; [exact (proj1 Hsib)|split; [exact (proj2 Hsib)|]]]];
    [| |split; [reflexivity | exact Hspare]].
  - unfold LogFmtFormat.
    pose proof (logfmt_assemble_fields static_record static_store) as Hf.
    unfold fields_of in Hf.
    destruct (logfmt_assemble static_record static_store) as [st1 pairs].
    cbn [fst snd] in Hf. rewrite Hf by (split; vm_compute; lia).
    replace (slice_elems static_store (ContextList static_record))
      with [VString "n"; VInt KInt 42; VString "k"; VNil]
      by (vm_compute; reflexivity).
    replace (slice_elems static_store (Pairs static_record))
      with (@nil value) by (vm_compute; reflexivity).
    cbn. unfold WriteByte, WriteString.
    repeat (rewrite ?append_assoc; cbn [String.append str1]). reflexivity.
  - unfold LogFmtFormat.
    pose proof (logfmt_assemble_fields static_record _ Hwf') as Hf.
    unfold fields_of in Hf.
    destruct (logfmt_assemble static_record _) as [st1 pairs].
    cbn [fst snd] in Hf. rewrite Hf, Hst.
    assert (Hp : slice_elems (JSONFormat pretty static_record static_store).1
                   (Pairs static_record) = [])
      by (destruct pretty; vm_compute; reflexivity).
    rewrite Hp.
    cbn. unfold WriteByte, WriteString.
    repeat (rewrite ?append_assoc; cbn [String.append str1]). reflexivity.
Qed.

(** ** [merge] *)

Section MergeFacts.

Variable range_order : gmap string value -> list (string * value).

(** [range] visits every entry of the map once. *)
Hypothesis range_order_perm : forall m, range_order m ≡ₚ map_to_list m.

Lemma assign_all (l : loc) (kvs : list (string * value)) :
  forall (h : map_store) (m0 : gmap string value),
    h !! l = Some m0 ->
    fold_left (fun h '(k, v) => map_assign l k v h) kvs h
    = <[l := fold_left (fun m kv => <[kv.1 := kv.2]> m) kvs m0]> h.
Proof.
  induction kvs as [|[k v] kvs IH]; intros h m0 Hl; cbn [fold_left].
  - symmetry. now apply insert_id.
  - rewrite (IH _ (<[k := v]> m0)).
    + unfold map_assign. now rewrite insert_alter_eq.
    + unfold map_assign. rewrite lookup_alter_eq, Hl. reflexivity.
Qed.

Lemma fill_union (kvs : list (string * value)) :
  forall m0 : gmap string value,
    fold_left (fun m kv => <[kv.1 := kv.2]> m) kvs m0
    = list_to_map (rev kvs) ∪ m0.
Proof.
  induction kvs as [|[k v] kvs IH]; intros m0; cbn [fold_left rev].
  - rewrite list_to_map_nil. now rewrite (left_id_L ∅ (∪)).
  - rewrite IH, list_to_map_app. cbn [list_to_map foldr fst snd].
    rewrite <- (assoc_L (∪)). f_equal.
    rewrite <- insert_union_l. now rewrite (left_id_L ∅ (∪)).
Qed.

(** Copying the entries of [m] over [m0], in whatever order [range] gives
    them, overlays [m0] with [m]. *)
Lemma copy_all (m m0 : gmap string value) :
  fold_left (fun m kv => <[kv.1 := kv.2]> m) (range_order m) m0 = m ∪ m0.
Proof.
  rewrite fill_union. f_equal.
  rewrite <- (list_to_map_to_list m) at 2.
  symmetry. apply list_to_map_proper.
  - apply NoDup_fst_map_to_list.
  - rewrite <- Permutation_rev. symmetry. apply range_order_perm.
Qed.

(** C9.  [merge] returns a map that did not exist before, holding every
    entry of [ctx] overlaid by every entry of [other] (on a shared key the
    value of [other]), and leaves every existing map, [ctx] and [other]
    among them, as it was. *)
Theorem merge_overlays (ctx other : Ctx) (h : map_store) :
  ctx_valid h ctx -> ctx_valid h other ->
  exists newCtx : loc,
    (merge range_order ctx other h).2 = Some newCtx /\
    h !! newCtx = None /\
    entries (merge range_order ctx other h).1 (Some newCtx)
    = entries h other ∪ entries h ctx /\
    (forall k,
       entries (merge range_order ctx other h).1 (Some newCtx) !! k
       = match entries h other !! k with
         | Some v => Some v
         | None => entries h ctx !! k
         end) /\
    (forall l, l <> newCtx -> (merge range_order ctx other h).1 !! l = h !! l) /\
    entries (merge range_order ctx other h).1 ctx = entries h ctx /\
    entries (merge range_order ctx other h).1 other = entries h other.
Proof.
  intros Hctx Hother.
  set (new := fresh (dom h)).
  assert (Hnew : h !! new = None) by (apply not_elem_of_dom, is_fresh).
  assert (Hkeep : forall (h' : map_store) c,
             ctx_valid h c -> (forall l, l <> new -> h' !! l = h !! l) ->
             entries h' c = entries h c).
  { intros h' [l|] Hv Hh'; [|reflexivity]. simpl in *.
    rewrite Hh'; [reflexivity|]. intros ->. rewrite Hnew in Hv.
    now destruct Hv. }
  assert (Hres : (merge range_order ctx other h).1
                 = <[new := entries h other ∪ entries h ctx]> h).
  { unfold merge. cbn [fst]. fold new.
    rewrite (Hkeep (<[new := ∅]> h) ctx Hctx)
      by (intros l Hl; now rewrite lookup_insert_ne).
    rewrite (assign_all new (range_order (entries h ctx)) (<[new := ∅]> h) ∅)
      by apply lookup_insert_eq.
    rewrite copy_all, insert_insert_eq, (right_id_L ∅ (∪)).
    rewrite (Hkeep (<[new := entries h ctx]> h) other Hother)
      by (intros l Hl; now rewrite lookup_insert_ne).
    rewrite (assign_all new _ _ (entries h ctx)) by apply lookup_insert_eq.
    now rewrite copy_all, insert_insert_eq. }
  exists new. rewrite Hres.
  assert (Hother' : forall l, l <> new ->
            <[new := entries h other ∪ entries h ctx]> h !! l = h !! l)
    by (intros l Hl; now rewrite lookup_insert_ne).
  split; [reflexivity|]. split; [exact Hnew|].
  split; [cbn [entries]; now rewrite lookup_insert_eq|].
  split.
  { intros k. cbn [entries]. rewrite lookup_insert_eq. simpl.
    rewrite lookup_union. destruct (entries h other !! k), (entries h ctx !! k);
      reflexivity. }
  split; [exact Hother'|].
  split; apply Hkeep; assumption.
Qed.

End MergeFacts.

Lemma merge_overlays_witness :
  (forall m : gmap string value, map_to_list m ≡ₚ map_to_list m) /\
  ctx_valid ctx_store (Some 1%positive) /\ ctx_valid ctx_store (Some 2%positive) /\
  exists newCtx : loc,
    (merge map_to_list (Some 1%positive) (Some 2%positive) ctx_store).2 = Some newCtx /\
    entries (merge map_to_list (Some 1%positive) (Some 2%positive) ctx_store).1
            (Some newCtx) !! "user"%string = Some (VInt KInt 2) /\
    entries (merge map_to_list (Some 1%positive) (Some 2%positive) ctx_store).1
            (Some newCtx) !! "app"%string = Some (VString "web").
Proof.
  assert (Hp : forall m : gmap string value, map_to_list m ≡ₚ map_to_list m)
    by reflexivity.
  assert (H1 : ctx_valid ctx_store (Some 1%positive)) by (vm_compute; eauto).
  assert (H2 : ctx_valid ctx_store (Some 2%positive)) by (vm_compute; eauto).
  split; [exact Hp|]. split; [exact H1|]. split; [exact H2|].
  destruct (merge_overlays map_to_list Hp (Some 1%positive) (Some 2%positive)
              ctx_store H1 H2) as (newCtx & E & _ & _ & L & _).
  exists newCtx. split; [exact E|]. split; rewrite L; reflexivity.
Defined.

(** ** The combining handler *)

Section CombiningFacts.

Context {World error : Type}.

Lemma combining_loop_app (init rest : list (Handler World error))
    (record : LogRecord) :
  forall (err : option error) (w : World),
    combining_loop (init ++ rest) record err w
    = match combining_loop init record err w with
      | (w0, Returns err0) => combining_loop rest record err0 w0
      | (w0, Panics p) => (w0, Panics p)
      end.
Proof.
  induction init as [|h init IH]; intros err w; [reflexivity|].
  cbn [app combining_loop].
  destruct (h record w) as [w1 [e1|p]]; [apply IH | reflexivity].
Qed.



End CombiningFacts.


(** On the three sample handlers: all three sinks are written, in order,
    and the error is the one of the third; the one of the first is lost. *)
Example combining_three_handlers :
  combiningHandler_Handle (trace_all 0 sample_handlers) nofile_record ([], [])
  = ((["one"; "two"; "three"]%string, [0; 1; 2]%nat), Returns (Some "closed"%string)).
Proof. reflexivity. Qed.

(** ** Closed instances of the field-list and pair statements *)

Lemma field_list_order_witness :
  slice_wf plain_store (ContextList plain_record) /\
  separate (ContextList plain_record) (Pairs plain_record) /\
  fields_of (@logfmt_assemble demoEnv plain_record plain_store)
  = flat (default_kvs plain_record)
    ++ [VString "app"; VString "web"] ++ [VString "user"; VInt KInt 7]
    ++ [VString "file"; VString "main.go"; VString "line"; VInt KInt 12].
Proof.
  assert (Hwf : slice_wf plain_store (ContextList plain_record))
    by (split; vm_compute; lia).
  assert (Hsep : separate (ContextList plain_record) (Pairs plain_record))
    by (left; discriminate).
  split; [exact Hwf|]. split; [exact Hsep|].
  exact (proj1 (@field_list_order demoEnv plain_record plain_store Hwf Hsep)).
Defined.

(** C6 (as stated) fails for the JSON formatter on a static context with a
    value that is not a string: its field list holds the text 42 (and
    "<nil>"), not the integer (and nil) of the staticContext. *)
Lemma json_field_list_counterexample :
  ~ (forall (env : GoEnv) (record : LogRecord) (st : store),
       slice_wf st (ContextList record) ->
       separate (ContextList record) (Pairs record) ->
       fields_of (json_assemble record st)
       = flat (default_kvs record) ++ slice_elems st (ContextList record)
         ++ slice_elems st (Pairs record) ++ flat (callsite_kvs record))
  /\ fields_of (@json_assemble demoEnv static_record static_store)
     = flat (default_kvs static_record)
       ++ [VString "n"; VString "42"; VString "k"; VString "<nil>"].
Proof.
  split; [|vm_compute; reflexivity].
  intros H.
  specialize (H demoEnv static_record static_store).
  assert (Hwf : slice_wf static_store (ContextList static_record))
    by (split; vm_compute; lia).
  assert (Hsep : separate (ContextList static_record) (Pairs static_record))
    by (left; discriminate).
  specialize (H Hwf Hsep). vm_compute in H. discriminate H.
Qed.

Lemma pairs_emitted_witness :
  slice_wf dup_store (ContextList dup_record) /\
  separate (ContextList dup_record) (Pairs dup_record) /\
  slice_elems dup_store (ContextList dup_record) = flat [] /\
  slice_elems dup_store (Pairs dup_record)
  = flat [("a"%string, VInt KInt 1); ("a"%string, VInt KInt 2)] /\
  (@LogFmtFormat demoEnv dup_record dup_store).2
  = Returns ("ts=2021-03-04T05:06:07.000000008Z lvl=INFO msg=hi a=1 a=2"
             +:+ str1 (byte_of r_newline)).
Proof.
  assert (Hwf : slice_wf dup_store (ContextList dup_record))
    by (split; vm_compute; lia).
  assert (Hsep : separate (ContextList dup_record) (Pairs dup_record))
    by (left; discriminate).
  assert (Hs : slice_elems dup_store (ContextList dup_record) = flat [])
    by (vm_compute; reflexivity).
  assert (Hd : slice_elems dup_store (Pairs dup_record)
               = flat [("a"%string, VInt KInt 1); ("a"%string, VInt KInt 2)])
    by (vm_compute; reflexivity).
  split; [exact Hwf|]. split; [exact Hsep|]. split; [exact Hs|]. split; [exact Hd|].
  rewrite (proj1 (@pairs_emitted demoEnv (mkTheme (fun _ s => s)) false
                    dup_record dup_store _ _ Hwf Hsep Hs Hd)).
  vm_compute. reflexivity.
Defined.

(** C4 (as stated) fails for the JSON formatter: of the five pairs of the
    sample event (ts, lvl, msg, a=1, a=2) the mapping it serialises keeps
    four entries, with a=2 only. *)
Lemma JSONFormat_merges_duplicates_counterexample :
  ~ (forall (env : GoEnv) (record : LogRecord) (st : store)
            (tmpMap : gmap string value),
       slice_wf st (ContextList record) ->
       json_fill (fields_of (json_assemble record st)) ∅ = Returns tmpMap ->
       size tmpMap = pair_count (fields_of (json_assemble record st)))
  /\ pair_count (fields_of (@json_assemble demoEnv dup_record dup_store)) = 5%nat
  /\ exists tmpMap : gmap string value,
       json_fill (fields_of (@json_assemble demoEnv dup_record dup_store)) ∅
       = Returns tmpMap /\
       size tmpMap = 4%nat /\
       tmpMap !! "a"%string = Some (VInt KInt 2) /\
       (@JSONFormat demoEnv false dup_record dup_store).2
       = Returns (@json_serialize demoEnv false tmpMap).
Proof.
  assert (Hrun : exists tmpMap : gmap string value,
             json_fill (fields_of (@json_assemble demoEnv dup_record dup_store)) ∅
             = Returns tmpMap /\
             size tmpMap = 4%nat /\
             tmpMap !! "a"%string = Some (VInt KInt 2) /\
             (@JSONFormat demoEnv false dup_record dup_store).2
             = Returns (@json_serialize demoEnv false tmpMap)).
  { eexists. split; [vm_compute; reflexivity|].
    split; [vm_compute; reflexivity|].
    split; vm_compute; reflexivity. }
  assert (Hcount : pair_count (fields_of (@json_assemble demoEnv dup_record dup_store))
                   = 5%nat) by (vm_compute; reflexivity).
  split; [|split; [exact Hcount | exact Hrun]].
  intros H. destruct Hrun as (tmpMap & Hfill & Hsize & _).
  specialize (H demoEnv dup_record dup_store tmpMap).
  rewrite Hcount, Hsize in H.
  assert (Hwf : slice_wf dup_store (ContextList dup_record))
    by (split; vm_compute; lia).
  specialize (H Hwf Hfill). discriminate H.
Qed.

(* ===================================================================== *)
(** * Part III: further properties of the package                         *)
(* ===================================================================== *)

(** ** What the formatters do to the store *)

Local Open Scope nat_scope.

(** A slice on an address without an array is empty, in every store. *)
Lemma unallocated_slice (st st' : store) (t : slice) :
  slice_wf st t -> st !! s_arr t = None ->
  slice_elems st' t = slice_elems st t /\ slice_wf st' t.
Proof.
  intros [H1 H2] Hn. unfold slice_wf, slice_elems, array_at in *.
  rewrite Hn in *. simpl in H2.
  assert (s_len t = 0) as -> by lia. rewrite !take_0.
  split; [reflexivity|]. split; lia.
Qed.

(** A slice whose array is the same in two stores has the same elements. *)
Lemma same_array (st st' : store) (t : slice) :
  st' !! s_arr t = st !! s_arr t ->
  slice_elems st' t = slice_elems st t /\ (slice_wf st t -> slice_wf st' t).
Proof.
  intros H. unfold slice_elems, slice_wf, array_at. rewrite H. auto.
Qed.

Lemma write_at_lookup (k i : nat) (xs a : list value) :
  i < k -> k <= length a -> write_at k xs a !! i = a !! i.
Proof.
  intros Hi Hk. unfold write_at.
  rewrite lookup_app_l by (rewrite length_take; lia).
  now apply lookup_take_lt.
Qed.

Section StoreEffect.

Context {env : GoEnv}.

(** [append] touches no array but the one of its first argument, frees
    none, and returns a slice on that array or on a new one. *)
Lemma append_store (st : store) (s : slice) (xs : list value) :
  (forall l, l <> s_arr s -> is_Some (st !! l) ->
             (append st s xs).1 !! l = st !! l) /\
  (forall l, is_Some (st !! l) -> is_Some ((append st s xs).1 !! l)) /\
  (s_arr (append st s xs).2 = s_arr s \/ st !! s_arr (append st s xs).2 = None).
Proof.
  unfold append. destruct xs as [|x xs']; [simpl; auto|].
  destruct (_ <=? _); cbn [fst snd s_arr].
  - split; [|split].
    + intros l Hl _. now rewrite lookup_alter_ne.
    + intros l Hl. now apply lookup_alter_is_Some.
    + now left.
  - assert (Hf : st !! fresh (dom st) = None)
      by (apply not_elem_of_dom, is_fresh).
    split; [|split].
    + intros l _ [a Ha]. rewrite lookup_insert_ne; [reflexivity|].
      intros <-. congruence.
    + intros l [a Ha]. destruct (decide (fresh (dom st) = l)) as [<-|N];
        [congruence|]. rewrite lookup_insert_ne by exact N. eauto.
    + now right.
Qed.

(** [append] leaves the elements of its first argument, and of every slice
    of the same array that ends no later, where they were. *)
Lemma append_window (st : store) (s t : slice) (xs : list value) :
  slice_wf st s -> slice_wf st t ->
  s_arr t = s_arr s -> s_off t + s_len t <= s_off s + s_len s ->
  slice_elems (append st s xs).1 t = slice_elems st t /\
  slice_wf (append st s xs).1 t.
Proof.
  intros [Hs1 Hs2] Ht Harr Hwin. unfold append.
  destruct xs as [|x xs']; [simpl; auto|].
  set (xs := x :: xs') in *.
  destruct (Nat.leb_spec (s_len s + length xs) (s_cap s)) as [Hfit|Hgrow];
    cbn [fst].
  - assert (Hsome : is_Some (st !! s_arr s)).
    { unfold array_at in Hs2. destruct (st !! s_arr s); [eauto|].
      simpl in Hs2. subst xs. simpl in Hfit. lia. }
    assert (Harr' : array_at (alter (write_at (s_off s + s_len s) xs) (s_arr s) st)
                             (s_arr t)
                    = write_at (s_off s + s_len s) xs (array_at st (s_arr t))).
    { rewrite Harr. unfold array_at. rewrite lookup_alter_eq.
      destruct Hsome as [a ->]. reflexivity. }
    destruct Ht as [Ht1 Ht2].
    unfold slice_elems, slice_wf. rewrite Harr'. rewrite Harr in *. split.
    + apply list_eq. intros i.
      destruct (decide (i < s_len t)) as [Hi|Hi].
      * rewrite !lookup_take_lt, !lookup_drop by lia.
        apply write_at_lookup; lia.
      * rewrite !lookup_take_ge by lia. reflexivity.
    + rewrite write_at_length by lia. split; lia.
  - split.
    + now apply slice_elems_alloc.
    + destruct Ht as [Ht1 Ht2]. split; [exact Ht1|].
      destruct (decide (s_arr t = fresh (dom st))) as [E|N].
      * rewrite E in *. rewrite array_at_fresh in Ht2. simpl in Ht2.
        rewrite array_at_insert_eq. lia.
      * now rewrite array_at_insert_ne by congruence.
Qed.

(** The statements every formatter but Simple starts with, and the
    optional [append] of the call site, seen from a slice [t] that existed
    before: a slice of another array, or one of the array of the static
    context that ends no later than it, keeps its elements. *)
Lemma assembly_frame (st : store) (cl p t : slice) (defaults extra : list value)
    (with_callsite : bool) :
  slice_wf st cl -> slice_wf st t ->
  s_arr t <> s_arr cl \/ (s_arr t = s_arr cl /\ s_off t + s_len t <= s_off cl + s_len cl) ->
  forall st1 p1 st2 lit st3 p3,
    append_slice st cl p = (st1, p1) ->
    slice_literal st1 defaults = (st2, lit) ->
    append_slice st2 lit p1 = (st3, p3) ->
    let st4 := if with_callsite then (append st3 p3 extra).1 else st3 in
    slice_elems st4 t = slice_elems st t /\ slice_wf st4 t.
Proof.
  intros Hcl Ht Hpos st1 p1 st2 lit st3 p3 E1 E2 E3 st4.
  destruct (st !! s_arr t) as [a|] eqn:Hta;
    [|now apply unallocated_slice].
  unfold append_slice in E1, E3.
  (* the first append *)
  destruct (append_store st cl (slice_elems st p)) as (K1 & D1 & _).
  rewrite E1 in K1, D1. cbn [fst snd] in K1, D1.
  assert (H1 : slice_elems st1 t = slice_elems st t /\ slice_wf st1 t).
  { destruct Hpos as [Hne|[Heq Hwin]].
    - destruct (same_array st st1 t) as [A W]; [apply K1; eauto|]. auto.
    - pose proof (append_window st cl t (slice_elems st p) Hcl Ht Heq Hwin) as H.
      now rewrite E1 in H. }
  assert (T1 : is_Some (st1 !! s_arr t)) by (apply D1; eauto).
  (* the literal *)
  unfold slice_literal in E2. injection E2 as <- <-.
  assert (Hf : st1 !! fresh (dom st1) = None)
    by (apply not_elem_of_dom, is_fresh).
  assert (Nf : fresh (dom st1) <> s_arr t).
  { intros E. rewrite E in Hf. destruct T1 as [? T1]. congruence. }
  set (st2 := <[fresh (dom st1) := defaults]> st1) in *.
  assert (K2 : st2 !! s_arr t = st1 !! s_arr t)
    by (unfold st2; now rewrite lookup_insert_ne).
  assert (T2 : is_Some (st2 !! s_arr t)) by now rewrite K2.
  (* the second append *)
  destruct (append_store st2 (mkSlice (fresh (dom st1)) 0 (length defaults)
                                      (length defaults))
                         (slice_elems st2 p1)) as (K3 & D3 & A3).
  rewrite E3 in K3, D3, A3. cbn [fst snd s_arr] in K3, D3, A3.
  assert (K3' : st3 !! s_arr t = st2 !! s_arr t) by (apply K3; auto).
  assert (T3 : is_Some (st3 !! s_arr t)) by (apply D3; exact T2).
  assert (N3 : s_arr t <> s_arr p3).
  { destruct A3 as [A3|A3]; [congruence|].
    intros E. rewrite <- E in A3. destruct T2 as [? T2]. congruence. }
  (* the call site *)
  assert (K4 : st4 !! s_arr t = st3 !! s_arr t).
  { unfold st4. destruct with_callsite; [|reflexivity].
    destruct (append_store st3 p3 extra) as (K4 & _ & _). apply K4; auto. }
  destruct (same_array st1 st4 t) as [A W];
    [now rewrite K4, K3', K2|].
  destruct H1 as [H1 W1]. rewrite A. auto.
Qed.

End StoreEffect.

Local Close Scope nat_scope.

(** ** Formatters as functions of the elements of the two slices *)

Lemma is_flat_flat (kvs : list (string * value)) : is_flat (flat kvs) = true.
Proof. induction kvs as [|[k v] kvs IH]; [reflexivity | exact IH]. Qed.

Lemma is_flat_inv (l : list value) :
  is_flat l = true -> exists kvs, l = flat kvs.
Proof.
  revert l. fix IH 1. intros [|x [|y l]] H.
  - exists []. reflexivity.
  - destruct x; discriminate.
  - destruct x; try discriminate. simpl in H.
    destruct (IH l H) as [kvs ->]. exists ((s, y) :: kvs). reflexivity.
Qed.

Lemma is_flat_app (kvs : list (string * value)) (l : list value) :
  is_flat (flat kvs ++ l) = is_flat l.
Proof. induction kvs as [|[k v] kvs IH]; [reflexivity | exact IH]. Qed.

(** Induction on a list two elements at a time. *)
Lemma pairs_ind (P : list value -> Prop) :
  P [] -> (forall x, P [x]) -> (forall x y l, P l -> P (x :: y :: l)) ->
  forall l, P l.
Proof.
  intros H0 H1 H2. fix IH 1. intros [|x [|y l]]; [exact H0 | apply H1 |].
  apply H2, IH.
Qed.

Section Encoding.

Context {env : GoEnv}.

Lemma logfmt_pair_appends (x y : value) (buf : Buffer) :
  logfmt_pair x y buf = buf +:+ logfmt_entry (x, y).
Proof.
  unfold logfmt_entry, logfmt_pair. cbn [fst snd].
  destruct (assert_string x) as [k ok].
  destruct (if negb ok then _ else _) as [k' v'].
  unfold WriteString, WriteByte.
  repeat (rewrite ?append_assoc; cbn [String.append str1]). reflexivity.
Qed.

(** The LogFmt loop on any list: it fails exactly on a list of odd length,
    at the index after the last element, and writes one entry per pair
    otherwise. *)
Lemma logfmt_loop_any (l : list value) :
  forall (first : bool) (buf : Buffer),
    logfmt_loop first l buf
    = if Nat.even (length l)
      then Returns match l with
                   | [] => buf
                   | _ :: _ => (if first then buf else buf +:+ " ")
                               +:+ unwords (map logfmt_entry (pair_up l))
                   end
      else Panics IndexOutOfRange.
Proof.
  induction l as [| x | x y l IH] using pairs_ind; intros first buf;
    [reflexivity | reflexivity |].
  cbn [logfmt_loop]. rewrite IH, logfmt_pair_appends.
  change (Nat.even (length (x :: y :: l))) with (Nat.even (length l)).
  destruct (Nat.even (length l)) eqn:Ev; [|reflexivity]. f_equal.
  unfold WriteByte, r_space. change (str1 (byte_of 32)) with " "%string.
  cbn [pair_up map].
  destruct l as [|x' [|y' l']].
  - unfold unwords. cbn [pair_up map String.concat].
    repeat (rewrite ?append_assoc; cbn [String.append]). reflexivity.
  - discriminate Ev.
  - cbn [pair_up map]. rewrite unwords_cons.
    repeat (rewrite ?append_assoc; cbn [String.append]). reflexivity.
Qed.

Lemma LogFmtFormat_store (record : LogRecord) (st : store) :
  (LogFmtFormat record st).1 = (logfmt_assemble record st).1.
Proof.
  unfold LogFmtFormat. destruct (logfmt_assemble record st) as [st' pairs].
  destruct (logfmt_loop _ _ _); reflexivity.
Qed.

Lemma LogFmtFormat_encode (record : LogRecord) (st : store) :
  slice_wf st (ContextList record) ->
  (LogFmtFormat record st).2
  = logfmt_encode (default_fields record ++ slice_elems st (ContextList record)
                   ++ slice_elems st (Pairs record) ++ flat (callsite_kvs record)).
Proof.
  intros Hwf. rewrite <- (logfmt_assemble_fields record st Hwf).
  unfold LogFmtFormat, logfmt_encode, fields_of.
  destruct (logfmt_assemble record st) as [st' pairs]. cbn [fst snd].
  destruct (logfmt_loop _ _ _); reflexivity.
Qed.

Lemma JSONFormat_store (pretty : bool) (record : LogRecord) (st : store) :
  (JSONFormat pretty record st).1 = (json_assemble record st).1.
Proof.
  unfold JSONFormat. destruct (json_assemble record st) as [st' pairs].
  destruct (json_fill _ _); reflexivity.
Qed.

Lemma JSONFormat_encode (pretty : bool) (record : LogRecord) (st : store) :
  slice_wf st (ContextList record) ->
  separate (ContextList record) (Pairs record) ->
  (JSONFormat pretty record st).2
  = json_encode pretty
      (default_fields record ++ (flatten <$> slice_elems st (ContextList record))
       ++ slice_elems st (Pairs record) ++ flat (callsite_kvs record)).
Proof.
  intros Hwf Hsep. rewrite <- (json_assemble_fields record st Hwf Hsep).
  unfold JSONFormat, json_encode, fields_of.
  destruct (json_assemble record st) as [st' pairs]. cbn [fst snd].
  destruct (json_fill _ _); reflexivity.
Qed.

Lemma ThemedTerminalFormat_encode (theme : Theme) (record : LogRecord) (st : store) :
  slice_wf st (ContextList record) ->
  (ThemedTerminalFormat theme record st).2
  = if padSpaces record <? 0 then Panics NegativeRepeatCount
    else match terminal_loop (default_fields record
                              ++ slice_elems st (ContextList record)
                              ++ slice_elems st (Pairs record))
                             (terminal_head theme record +:+ " [") with
         | Panics p => Panics p
         | Returns buff => Returns (buff +:+ "]" +:+ str1 (byte_of r_newline))
         end.
Proof.
  intros Hwf. unfold ThemedTerminalFormat. fold (padSpaces record).
  destruct (padSpaces record <? 0); [reflexivity|].
  destruct (append_slice st _ _) as [st1 p1] eqn:E1.
  destruct (slice_literal st1 _) as [st2 lit] eqn:E2.
  destruct (append_slice st2 _ _) as [st3 p3] eqn:E3.
  destruct (prepend_defaults _ _ _ _ Hwf _ _ _ _ _ _ E1 E2 E3) as (A & W & L).
  rewrite A.
  assert (Hpos : (0 <? s_len p3)%nat = true).
  { apply Nat.ltb_lt. rewrite L. simpl. lia. }
  rewrite Hpos.
  unfold terminal_head, WriteString, WriteRune, buffPool_Get.
  change (EncodeRune r_space) with " "%string.
  change (EncodeRune 93) with "]"%string.
  change (EncodeRune r_newline) with (str1 (byte_of r_newline)).
  replace (EmptyString +:+ ForLevel theme (Level record) (Level_String (Level record)))
    with (ForLevel theme (Level record) (Level_String (Level record)))
    by reflexivity.
  repeat (rewrite ?append_assoc; cbn [String.append]).
  destruct (terminal_loop _ _); cbn [snd]; [|reflexivity].
  repeat (rewrite ?append_assoc; cbn [String.append]). reflexivity.
Qed.

Lemma ThemedTerminalFormat_store (theme : Theme) (record : LogRecord) (st : store)
    (t : slice) :
  slice_wf st (ContextList record) -> slice_wf st t ->
  s_arr t <> s_arr (ContextList record)
  \/ (s_arr t = s_arr (ContextList record)
      /\ (s_off t + s_len t
          <= s_off (ContextList record) + s_len (ContextList record))%nat) ->
  slice_elems (ThemedTerminalFormat theme record st).1 t = slice_elems st t /\
  slice_wf (ThemedTerminalFormat theme record st).1 t.
Proof.
  intros Hwf Ht Hpos. unfold ThemedTerminalFormat.
  destruct (_ <? 0); [cbn [fst]; auto|].
  destruct (append_slice st _ _) as [st1 p1] eqn:E1.
  destruct (slice_literal st1 _) as [st2 lit] eqn:E2.
  destruct (append_slice st2 _ _) as [st3 p3] eqn:E3.
  pose proof (assembly_frame st _ _ t _ [] false Hwf Ht Hpos _ _ _ _ _ _ E1 E2 E3) as H.
  cbv zeta in H. destruct (terminal_loop _ _); exact H.
Qed.

Lemma logfmt_assemble_store (record : LogRecord) (st : store) (t : slice) :
  slice_wf st (ContextList record) -> slice_wf st t ->
  s_arr t <> s_arr (ContextList record)
  \/ (s_arr t = s_arr (ContextList record)
      /\ (s_off t + s_len t
          <= s_off (ContextList record) + s_len (ContextList record))%nat) ->
  slice_elems (logfmt_assemble record st).1 t = slice_elems st t /\
  slice_wf (logfmt_assemble record st).1 t.
Proof.
  intros Hwf Ht Hpos. unfold logfmt_assemble.
  destruct (append_slice st _ _) as [st1 p1] eqn:E1.
  destruct (slice_literal st1 _) as [st2 lit] eqn:E2.
  destruct (append_slice st2 _ _) as [st3 p3] eqn:E3.
  pose proof (assembly_frame st _ _ t _ (callsite_fields record)
                (0 <? Line record) Hwf Ht Hpos _ _ _ _ _ _ E1 E2 E3) as H.
  cbv zeta in H. destruct (0 <? Line record); exact H.
Qed.

End Encoding.

Lemma is_flat_even (l : list value) : is_flat l = true -> Nat.even (length l) = true.
Proof.
  induction l as [| x | x y l IH] using pairs_ind; intros H;
    [reflexivity | destruct x; discriminate |].
  destruct x; try discriminate. exact (IH H).
Qed.

Lemma is_flat_app_r (l : list value) (kvs : list (string * value)) :
  is_flat (l ++ flat kvs) = is_flat l.
Proof.
  induction l as [| x | x y l IH] using pairs_ind.
  - apply is_flat_flat.
  - destruct (is_flat ([x] ++ flat kvs)) eqn:E; [|destruct x; reflexivity].
    apply is_flat_even in E. rewrite length_app in E.
    assert (Hl : length (flat kvs) = (2 * length kvs)%nat).
    { clear. induction kvs as [|[k v] kvs IH]; simpl; lia. }
    rewrite Hl in E. change (length [x]) with 1%nat in E.
    replace (1 + 2 * length kvs)%nat with (S (2 * length kvs)) in E by lia.
    rewrite Nat.even_succ, Nat.odd_mul in E. discriminate E.
  - destruct x; try reflexivity. exact IH.
Qed.

Section Failures.

Context {env : GoEnv}.

Lemma is_flat_flattened (l m : list value) :
  Nat.even (length l) = true -> is_flat ((flatten <$> l) ++ m) = is_flat m.
Proof.
  induction l as [| x | x y l IH] using pairs_ind; intros H;
    [reflexivity | discriminate |].
  exact (IH H).
Qed.

Lemma terminal_loop_returns (l : list value) :
  forall buff : Buffer,
    (exists out, terminal_loop l buff = Returns out) <-> is_flat l = true.
Proof.
  induction l as [| x | x y l IH] using pairs_ind; intros buff.
  - split; [reflexivity | eauto].
  - split; [intros [out H] | intros H]; destruct x; discriminate.
  - destruct x; try (split; [intros [out H] | intros H]; discriminate).
    rewrite terminal_loop_step. apply IH.
Qed.

Lemma json_fill_returns (l : list value) :
  forall tmpMap : gmap string value,
    (exists m, json_fill l tmpMap = Returns m) <-> is_flat l = true.
Proof.
  induction l as [| x | x y l IH] using pairs_ind; intros tmpMap.
  - split; [reflexivity | eauto].
  - split; [intros [out H] | intros H]; destruct x; discriminate.
  - destruct x; try (split; [intros [out H] | intros H]; discriminate).
    cbn [json_fill is_flat]. apply IH.
Qed.

Lemma fields_parity (record : LogRecord) (a b : list value) :
  Nat.even (length (default_fields record ++ a ++ b ++ flat (callsite_kvs record)))
  = Nat.even (length a + length b).
Proof.
  rewrite !length_app. unfold callsite_kvs.
  change (length (default_fields record)) with 6%nat.
  destruct (0 <? Line record); cbn [flat length].
  - replace (6 + (length a + (length b + 4)))%nat
      with (S (S (S (S (S (S (S (S (S (S (length a + length b)))))))))))%nat by lia.
    reflexivity.
  - replace (6 + (length a + (length b + 0)))%nat
      with (S (S (S (S (S (S (length a + length b)))))))%nat by lia.
    reflexivity.
Qed.

(** X1.  [LogFmtFormat] fails exactly when the static context and the
    dynamic pairs have an odd number of elements together: the loop then
    indexes one past the end and panics.  On an even number it returns one
    entry per pair, whatever the types of the keys, separated by single
    spaces and closed by a newline. *)
Theorem LogFmtFormat_panics_iff_odd (record : LogRecord) (st : store) :
  slice_wf st (ContextList record) -> slice_wf st (Pairs record) ->
  (LogFmtFormat record st).2
  = if Nat.even (s_len (ContextList record) + s_len (Pairs record))
    then Returns (unwords (map logfmt_entry
                     (pair_up (default_fields record
                               ++ slice_elems st (ContextList record)
                               ++ slice_elems st (Pairs record)
                               ++ flat (callsite_kvs record))))
                  +:+ str1 (byte_of r_newline))
    else Panics IndexOutOfRange.
Proof.
  intros Hcl Hp. rewrite (LogFmtFormat_encode record st Hcl).
  unfold logfmt_encode. rewrite logfmt_loop_any, fields_parity.
  rewrite (slice_elems_length st _ Hcl), (slice_elems_length st _ Hp).
  destruct (Nat.even _); reflexivity.
Qed.

(** X2.  [ThemedTerminalFormat] returns exactly when the padding is not
    negative and the static context followed by the dynamic pairs is an
    alternation of string keys and values; a key of another type, or a last
    key without a value, makes it panic. *)
Theorem ThemedTerminalFormat_returns_iff (theme : Theme) (record : LogRecord)
    (st : store) :
  slice_wf st (ContextList record) ->
  (exists out, (ThemedTerminalFormat theme record st).2 = Returns out)
  <-> (0 <= padSpaces record
       /\ is_flat (slice_elems st (ContextList record)
                   ++ slice_elems st (Pairs record)) = true).
Proof.
  intros Hwf. rewrite (ThemedTerminalFormat_encode theme record st Hwf).
  change (default_fields record) with (flat (default_kvs record)).
  rewrite <- (is_flat_app (default_kvs record)).
  rewrite <- (terminal_loop_returns _ (terminal_head theme record +:+ " [")).
  destruct (Z.ltb_spec (padSpaces record) 0) as [Hneg|Hpos].
  - split; [intros [out H]; discriminate | intros [H _]; lia].
  - destruct (terminal_loop _ _) as [buff|p].
    + split; eauto.
    + split; [intros [out H]; discriminate | intros [_ [out H]]; discriminate].
Qed.

(** X3.  With a static context of even length, [JSONFormat] returns exactly
    when the dynamic pairs are an alternation of string keys and values.
    The static context cannot make it fail: its keys have been turned into
    strings, whatever they were. *)
Theorem JSONFormat_returns_iff (pretty : bool) (record : LogRecord) (st : store) :
  slice_wf st (ContextList record) ->
  separate (ContextList record) (Pairs record) ->
  Nat.even (s_len (ContextList record)) = true ->
  (exists out, (JSONFormat pretty record st).2 = Returns out)
  <-> is_flat (slice_elems st (Pairs record)) = true.
Proof.
  intros Hwf Hsep Heven.
  rewrite (JSONFormat_encode pretty record st Hwf Hsep). unfold json_encode.
  rewrite <- (is_flat_app_r _ (callsite_kvs record)).
  rewrite <- (is_flat_flattened (slice_elems st (ContextList record)))
    by now rewrite (slice_elems_length st _ Hwf).
  rewrite <- (is_flat_app (default_kvs record)).
  change (flat (default_kvs record)) with (default_fields record).
  rewrite <- (json_fill_returns _ ∅).
  destruct (json_fill _ _) as [m|p].
  - split; eauto.
  - split; intros [out H]; discriminate.
Qed.

End Failures.

Lemma last_value_app (k : string) (a b : list (string * value)) :
  last_value k (a ++ b)
  = match last_value k b with
    | Some v => Some v
    | None => last_value k a
    end.
Proof.
  unfold last_value. rewrite fold_left_app.
  generalize (fold_left (fun acc kv => if (kv.1 =? k)%string then Some kv.2 else acc)
                        a None).
  induction b as [|[k1 v1] b IH] using rev_ind; intros acc; [reflexivity|].
  rewrite !fold_left_app. cbn [fold_left fst snd].
  destruct (k1 =? k)%string; [reflexivity|]. apply IH.
Qed.

Section Stores.

Context {env : GoEnv}.

(** X4.  The Simple, Terminal and LogFmt formatters leave the elements of
    the static context of the event as they were, and those of every other
    slice that lies on another array or ends, on the same array, no later
    than the static context. *)
Theorem formatters_keep_elements (theme : Theme) (record : LogRecord)
    (st : store) (t : slice) :
  slice_wf st (ContextList record) -> slice_wf st t ->
  out_of_reach (ContextList record) t ->
  slice_elems (SimpleFormat record st).1 t = slice_elems st t /\
  slice_elems (ThemedTerminalFormat theme record st).1 t = slice_elems st t /\
  slice_elems (LogFmtFormat record st).1 t = slice_elems st t.
Proof.
  intros Hwf Ht Hpos. split; [reflexivity|]. split.
  - apply (ThemedTerminalFormat_store theme record st t Hwf Ht Hpos).
  - rewrite LogFmtFormat_store.
    apply (logfmt_assemble_store record st t Hwf Ht Hpos).
Qed.

Lemma json_assemble_store (record : LogRecord) (st : store) :
  slice_wf st (ContextList record) ->
  slice_elems (json_assemble record st).1 (ContextList record)
  = flatten <$> slice_elems st (ContextList record) /\
  slice_wf (json_assemble record st).1 (ContextList record) /\
  forall t, slice_wf st t -> s_arr t <> s_arr (ContextList record) ->
            slice_elems (json_assemble record st).1 t = slice_elems st t /\
            slice_wf (json_assemble record st).1 t.
Proof.
  intros Hwf.
  pose proof (flatten_ContextList_wf st (ContextList record) _ Hwf) as Hwf0.
  pose proof (flatten_ContextList_elems st _ Hwf) as He0.
  assert (Hall : forall t, slice_wf (flatten_ContextList st (ContextList record)) t ->
            s_arr t <> s_arr (ContextList record)
            \/ (s_arr t = s_arr (ContextList record)
                /\ (s_off t + s_len t
                    <= s_off (ContextList record) + s_len (ContextList record))%nat) ->
            slice_elems (json_assemble record st).1 t
            = slice_elems (flatten_ContextList st (ContextList record)) t /\
            slice_wf (json_assemble record st).1 t).
  { intros t Ht Hpos. unfold json_assemble.
    set (st0 := flatten_ContextList st (ContextList record)) in *.
    destruct (append_slice st0 _ _) as [st1 p1] eqn:E1.
    destruct (slice_literal st1 _) as [st2 lit] eqn:E2.
    destruct (append_slice st2 _ _) as [st3 p3] eqn:E3.
    pose proof (assembly_frame st0 _ _ t _ (callsite_fields record)
                  (0 <? Line record) Hwf0 Ht Hpos _ _ _ _ _ _ E1 E2 E3) as H.
    cbv zeta in H. destruct (0 <? Line record); exact H. }
  split; [|split].
  - rewrite <- He0. apply Hall; [exact Hwf0 | right; split; [reflexivity | lia]].
  - apply Hall; [exact Hwf0 | right; split; [reflexivity | lia]].
  - intros t Ht Hne.
    rewrite <- (flatten_ContextList_frame st (ContextList record) t)
      by (left; congruence).
    apply Hall; [now apply flatten_ContextList_wf | now left].
Qed.

Lemma flatten_twice (l : list value) : flatten <$> (flatten <$> l) = flatten <$> l.
Proof.
  induction l as [|v l IH]; [reflexivity|].
  cbn [fmap list_fmap] in *. now rewrite IH.
Qed.

(** X5.  [JSONFormat] leaves in the backing array of the static context,
    in place of each element, the string of its [%+v] text; it leaves the
    slices of every other array as they were; and a second run changes
    nothing more. *)
Theorem JSONFormat_store_effect (pretty pretty' : bool) (record : LogRecord)
    (st : store) :
  slice_wf st (ContextList record) ->
  slice_elems (JSONFormat pretty record st).1 (ContextList record)
  = flatten <$> slice_elems st (ContextList record) /\
  (forall t, slice_wf st t -> s_arr t <> s_arr (ContextList record) ->
             slice_elems (JSONFormat pretty record st).1 t = slice_elems st t) /\
  slice_elems (JSONFormat pretty' record (JSONFormat pretty record st).1).1
              (ContextList record)
  = slice_elems (JSONFormat pretty record st).1 (ContextList record).
Proof.
  intros Hwf. rewrite !JSONFormat_store.
  destruct (json_assemble_store record st Hwf) as (E & W & F).
  split; [exact E|]. split; [intros t Ht Hne; apply (F t Ht Hne)|].
  destruct (json_assemble_store record _ W) as (E' & _ & _).
  rewrite E', E. apply flatten_twice.
Qed.

(** X6.  Formatting an event again gives the same bytes, or the same
    panic: the Terminal, JSON and LogFmt formatters each return, on the
    store their own run has left, what they returned the first time. *)
Theorem Format_repeatable (theme : Theme) (pretty : bool) (record : LogRecord)
    (st : store) :
  slice_wf st (ContextList record) -> slice_wf st (Pairs record) ->
  s_arr (Pairs record) <> s_arr (ContextList record) ->
  (ThemedTerminalFormat theme record (ThemedTerminalFormat theme record st).1).2
  = (ThemedTerminalFormat theme record st).2 /\
  (JSONFormat pretty record (JSONFormat pretty record st).1).2
  = (JSONFormat pretty record st).2 /\
  (LogFmtFormat record (LogFmtFormat record st).1).2
  = (LogFmtFormat record st).2.
Proof.
  intros Hcl Hp Hne.
  assert (Hself : out_of_reach (ContextList record) (ContextList record))
    by (right; split; [reflexivity | lia]).
  assert (Hother : out_of_reach (ContextList record) (Pairs record)) by now left.
  assert (Hsep : separate (ContextList record) (Pairs record))
    by (left; congruence).
  split; [|split].
  - destruct (ThemedTerminalFormat_store theme record st _ Hcl Hcl Hself) as [E1 W1].
    destruct (ThemedTerminalFormat_store theme record st _ Hcl Hp Hother) as [E2 _].
    rewrite (ThemedTerminalFormat_encode theme record _ W1), E1, E2.
    symmetry. now apply ThemedTerminalFormat_encode.
  - destruct (json_assemble_store record st Hcl) as (E & W & F).
    destruct (F _ Hp Hne) as [E2 _].
    rewrite <- (JSONFormat_store pretty) in E, W, E2.
    rewrite (JSONFormat_encode pretty record _ W Hsep), E, E2, flatten_twice.
    symmetry. now apply JSONFormat_encode.
  - destruct (logfmt_assemble_store record st _ Hcl Hcl Hself) as [E1 W1].
    destruct (logfmt_assemble_store record st _ Hcl Hp Hother) as [E2 _].
    rewrite <- LogFmtFormat_store in E1, W1, E2.
    rewrite (LogFmtFormat_encode record _ W1), E1, E2.
    symmetry. now apply LogFmtFormat_encode.
Qed.

(** X7.  After [JSONFormat] has formatted an event, [LogFmtFormat] renders
    the static context of that event from the flattened elements: each
    static key and value as the escaped [%+v] text, no longer by its
    type. *)
Theorem LogFmtFormat_after_JSONFormat (pretty : bool) (record : LogRecord)
    (st : store) :
  slice_wf st (ContextList record) -> slice_wf st (Pairs record) ->
  s_arr (Pairs record) <> s_arr (ContextList record) ->
  (LogFmtFormat record (JSONFormat pretty record st).1).2
  = logfmt_encode (default_fields record
                   ++ (flatten <$> slice_elems st (ContextList record))
                   ++ slice_elems st (Pairs record) ++ flat (callsite_kvs record))
  /\
  (LogFmtFormat record st).2
  = logfmt_encode (default_fields record
                   ++ slice_elems st (ContextList record)
                   ++ slice_elems st (Pairs record) ++ flat (callsite_kvs record)).
Proof.
  intros Hcl Hp Hne. split; [|now apply LogFmtFormat_encode].
  destruct (json_assemble_store record st Hcl) as (E & W & F).
  destruct (F _ Hp Hne) as [E2 _].
  rewrite <- (JSONFormat_store pretty) in E, W, E2.
  now rewrite (LogFmtFormat_encode record _ W), E, E2.
Qed.

(** X8.  In the mapping [JSONFormat] serialises, [file] and [line] are
    those of the call site whenever the line is positive, whatever pairs
    carry these keys; and a static or dynamic pair with any other key,
    [ts], [lvl] and [msg] included, replaces the default field of that
    name. *)
Theorem JSONFormat_reserved_keys (pretty : bool) (record : LogRecord)
    (st : store) (static dynamic : list (string * value)) :
  slice_wf st (ContextList record) ->
  separate (ContextList record) (Pairs record) ->
  slice_elems st (ContextList record) = flat static ->
  slice_elems st (Pairs record) = flat dynamic ->
  exists tmpMap : gmap string value,
    (JSONFormat pretty record st).2 = Returns (json_serialize pretty tmpMap) /\
    (0 < Line record ->
     tmpMap !! "file"%string = Some (VString (File record)) /\
     tmpMap !! "line"%string = Some (VInt KInt (Line record))) /\
    (forall k v,
       last_value k (map flatten_kv static ++ dynamic) = Some v ->
       (0 < Line record -> k <> "file"%string /\ k <> "line"%string) ->
       tmpMap !! k = Some v) /\
    (last_value "msg" (map flatten_kv static ++ dynamic) = None ->
     tmpMap !! "msg"%string = Some (VString (Message record))).
Proof.
  intros Hwf Hsep Hs Hd.
  rewrite (JSONFormat_encode pretty record st Hwf Hsep). unfold json_encode.
  rewrite Hs, Hd, flatten_flat.
  change (default_fields record) with (flat (default_kvs record)).
  rewrite <- !flat_app, json_fill_flat.
  eexists. split; [reflexivity|].
  assert (L : forall k,
    fold_left (fun m kv => <[kv.1 := kv.2]> m)
      (default_kvs record ++ map flatten_kv static ++ dynamic ++ callsite_kvs record)
      (∅ : gmap string value) !! k
    = match last_value k (callsite_kvs record) with
      | Some v => Some v
      | None => match last_value k (map flatten_kv static ++ dynamic) with
                | Some v => Some v
                | None => last_value k (default_kvs record)
                end
      end).
  { intros k.
    rewrite <- (last_value_app k (default_kvs record)), <- last_value_app.
    rewrite <- !app_assoc. unfold last_value. apply fill_lookup.
    apply lookup_empty. }
  split; [|split].
  - intros Hline. rewrite !L. unfold callsite_kvs.
    destruct (Z.ltb_spec 0 (Line record)); [|lia]. split; reflexivity.
  - intros k v Hv Hk. rewrite L, Hv. unfold callsite_kvs.
    destruct (Z.ltb_spec 0 (Line record)) as [Hl|Hl]; [|reflexivity].
    destruct (Hk Hl) as [K1 K2]. unfold last_value. cbn [fold_left fst snd].
    destruct (String.eqb_spec "line" k); [congruence|].
    destruct (String.eqb_spec "file" k); [congruence|]. reflexivity.
  - intros Hn. rewrite L, Hn. unfold callsite_kvs.
    destruct (0 <? Line record); reflexivity.
Qed.

End Stores.

Local Open Scope nat_scope.

Section Spare.

Context {env : GoEnv}.

(** After the first [append], nothing a formatter does touches an array
    that existed. *)
Lemma assembly_rest (st1 : store) (p1 : slice) (defaults extra : list value)
    (with_callsite : bool) (l : loc) :
  is_Some (st1 !! l) ->
  forall st2 lit st3 p3,
    slice_literal st1 defaults = (st2, lit) ->
    append_slice st2 lit p1 = (st3, p3) ->
    (if with_callsite then (append st3 p3 extra).1 else st3) !! l = st1 !! l.
Proof.
  intros T1 st2 lit st3 p3 E2 E3.
  unfold slice_literal in E2. injection E2 as <- <-.
  assert (Hf : st1 !! fresh (dom st1) = None)
    by (apply not_elem_of_dom, is_fresh).
  assert (Nf : fresh (dom st1) <> l).
  { intros E. rewrite E in Hf. destruct T1 as [? T1]. congruence. }
  set (st2 := <[fresh (dom st1) := defaults]> st1) in *.
  assert (K2 : st2 !! l = st1 !! l) by (unfold st2; now rewrite lookup_insert_ne).
  assert (T2 : is_Some (st2 !! l)) by now rewrite K2.
  unfold append_slice in E3.
  destruct (append_store st2 (mkSlice (fresh (dom st1)) 0 (length defaults)
                                      (length defaults))
                         (slice_elems st2 p1)) as (K3 & D3 & A3).
  rewrite E3 in K3, D3, A3. cbn [fst snd s_arr] in K3, D3, A3.
  assert (K3' : st3 !! l = st2 !! l) by (apply K3; auto).
  assert (T3 : is_Some (st3 !! l)) by (apply D3; exact T2).
  assert (N3 : l <> s_arr p3).
  { destruct A3 as [A3|A3]; [congruence|].
    intros E. rewrite <- E in A3. destruct T2 as [? T2]. congruence. }
  rewrite <- K2, <- K3'.
  destruct with_callsite; [|reflexivity].
  destruct (append_store st3 p3 extra) as (K4 & _ & _). apply K4; auto.
Qed.

(** [append(cl, p...)] within the capacity of [cl] leaves the elements of
    [p] right after those of [cl], in the array of [cl]. *)
Lemma append_fills_spare (st : store) (cl p : slice) :
  slice_wf st cl -> slice_wf st p ->
  0 < s_len p -> s_len cl + s_len p <= s_cap cl ->
  slice_elems (append_slice st cl p).1 (spare_window cl p) = slice_elems st p /\
  is_Some ((append_slice st cl p).1 !! s_arr cl).
Proof.
  intros [Hc1 Hc2] Hp Hpos Hfit.
  pose proof (slice_elems_length st p Hp) as Hlen.
  unfold append_slice, append.
  destruct (slice_elems st p) as [|x xs'] eqn:Ex; [simpl in Hlen; lia|].
  rewrite <- Ex in *. clear x xs' Ex.
  set (xs := slice_elems st p) in *.
  destruct (Nat.leb_spec (s_len cl + length xs) (s_cap cl)) as [_|Hgrow]; [|lia].
  cbn [fst].
  assert (Hsome : is_Some (st !! s_arr cl)).
  { unfold array_at in Hc2. destruct (st !! s_arr cl); [eauto|].
    simpl in Hc2. lia. }
  split; [|now apply lookup_alter_is_Some].
  unfold slice_elems at 1, spare_window. cbn [s_arr s_off s_len].
  unfold array_at in *. rewrite lookup_alter_eq.
  destruct Hsome as [a Ha]. rewrite Ha in *.
  assert (Hc3 : s_off cl + s_cap cl <= length a) by exact Hc2.
  change (default [] (write_at (s_off cl + s_len cl) xs <$> Some a))
    with (write_at (s_off cl + s_len cl) xs a).
  unfold write_at.
  rewrite drop_app_length' by (rewrite length_take; lia).
  rewrite <- Hlen. apply take_app_length.
Qed.

(** X9.  When the dynamic pairs fit in the spare capacity of the static
    context, [LogFmtFormat] and [JSONFormat] leave them written there:
    the elements right after the static context, in its backing array,
    are overwritten by the pairs of the event. *)
Theorem Format_fills_spare_capacity (pretty : bool) (record : LogRecord)
    (st : store) :
  slice_wf st (ContextList record) -> slice_wf st (Pairs record) ->
  s_arr (Pairs record) <> s_arr (ContextList record) ->
  0 < s_len (Pairs record) ->
  s_len (ContextList record) + s_len (Pairs record) <= s_cap (ContextList record) ->
  slice_elems (LogFmtFormat record st).1
              (spare_window (ContextList record) (Pairs record))
  = slice_elems st (Pairs record) /\
  slice_elems (JSONFormat pretty record st).1
              (spare_window (ContextList record) (Pairs record))
  = slice_elems st (Pairs record).
Proof.
  intros Hcl Hp Hne Hpos Hfit.
  assert (Hgen : forall st0 with_callsite,
    slice_wf st0 (ContextList record) -> slice_wf st0 (Pairs record) ->
    forall st1 p1 st2 lit st3 p3,
      append_slice st0 (ContextList record) (Pairs record) = (st1, p1) ->
      slice_literal st1 (default_fields record) = (st2, lit) ->
      append_slice st2 lit p1 = (st3, p3) ->
      slice_elems (if with_callsite : bool
                   then (append st3 p3 (callsite_fields record)).1 else st3)
                  (spare_window (ContextList record) (Pairs record))
      = slice_elems st0 (Pairs record)).
  { intros st0 wc H0 H0p st1 p1 st2 lit st3 p3 E1 E2 E3.
    destruct (append_fills_spare st0 _ _ H0 H0p Hpos Hfit) as [F S].
    rewrite E1 in F, S. cbn [fst] in F, S. rewrite <- F.
    apply same_array. cbn [spare_window s_arr].
    apply (assembly_rest st1 p1 _ _ wc _ S _ _ _ _ E2 E3). }
  split.
  - rewrite LogFmtFormat_store. unfold logfmt_assemble.
    destruct (append_slice st _ _) as [st1 p1] eqn:E1.
    destruct (slice_literal st1 _) as [st2 lit] eqn:E2.
    destruct (append_slice st2 _ _) as [st3 p3] eqn:E3.
    pose proof (Hgen st (0 <? Line record)%Z Hcl Hp _ _ _ _ _ _ E1 E2 E3) as H.
    destruct (0 <? Line record)%Z; exact H.
  - rewrite JSONFormat_store. unfold json_assemble.
    pose proof (flatten_ContextList_wf st (ContextList record) _ Hcl) as Hcl0.
    pose proof (flatten_ContextList_wf st (ContextList record) _ Hp) as Hp0.
    pose proof (flatten_ContextList_frame st (ContextList record) (Pairs record)
                  (or_introl (not_eq_sym Hne))) as Hfr.
    set (st0 := flatten_ContextList st (ContextList record)) in *.
    destruct (append_slice st0 _ _) as [st1 p1] eqn:E1.
    destruct (slice_literal st1 _) as [st2 lit] eqn:E2.
    destruct (append_slice st2 _ _) as [st3 p3] eqn:E3.
    pose proof (Hgen st0 (0 <? Line record)%Z Hcl0 Hp0 _ _ _ _ _ _ E1 E2 E3) as H.
    rewrite Hfr in H. destruct (0 <? Line record)%Z; exact H.
Qed.

End Spare.

Local Close Scope nat_scope.

(** ** [escapeString]: what a reader of the line can rely on *)

Lemma append_inv_tail (x y t : string) : x +:+ t = y +:+ t -> x = y.
Proof.
  revert y. induction x as [|a x IH]; intros [|b y] H.
  - reflexivity.
  - apply (f_equal String.length) in H. rewrite !append_length in H.
    simpl in H. lia.
  - apply (f_equal String.length) in H. rewrite !append_length in H.
    simpl in H. lia.
  - simpl in H. injection H as -> H. f_equal. now apply IH.
Qed.

Lemma unescape_escaped_copy (s : string) : unescape (escaped_copy s) = s.
Proof.
  induction s as [|a s IH]; [reflexivity|].
  cbn [escaped_copy]. unfold escape_byte.
  destruct (Z.eqb_spec (byte_val a) 92) as [E|N1];
    [cbn [orb String.append str1 unescape]; change (byte_val "092" =? 92) with true;
     cbv iota; unfold unescape_byte; rewrite E; cbn; now rewrite IH|].
  destruct (Z.eqb_spec (byte_val a) 34) as [E|N2];
    [cbn [orb String.append str1 unescape]; change (byte_val "092" =? 92) with true;
     cbv iota; unfold unescape_byte; rewrite E; cbn; now rewrite IH|].
  cbn [orb].
  destruct (Z.eqb_spec (byte_val a) 10) as [E|N3];
    [cbn; rewrite IH; f_equal; apply (byte_of_eq 10); congruence|].
  destruct (Z.eqb_spec (byte_val a) 13) as [E|N4];
    [cbn; rewrite IH; f_equal; apply (byte_of_eq 13); congruence|].
  destruct (Z.eqb_spec (byte_val a) 9) as [E|N5];
    [cbn; rewrite IH; f_equal; apply (byte_of_eq 9); congruence|].
  cbn [String.append str1 unescape].
  destruct (Z.eqb_spec (byte_val a) 92); [contradiction|]. now rewrite IH.
Qed.

Lemma escaped_copy_inj (s t : string) : escaped_copy s = escaped_copy t -> s = t.
Proof.
  intros H. rewrite <- (unescape_escaped_copy s), <- (unescape_escaped_copy t).
  now rewrite H.
Qed.

(** An escaped copy never starts with a double quote. *)
Lemma escaped_copy_head (s u : string) : escaped_copy s <> String (byte_of 34) u.
Proof.
  destruct s as [|a s]; [discriminate|].
  cbn [escaped_copy]. unfold escape_byte.
  destruct (Z.eqb_spec (byte_val a) 92) as [E|N1]; [discriminate|].
  destruct (Z.eqb_spec (byte_val a) 34) as [E|N2]; [discriminate|].
  cbn [orb].
  destruct (Z.eqb_spec (byte_val a) 10); [discriminate|].
  destruct (Z.eqb_spec (byte_val a) 13); [discriminate|].
  destruct (Z.eqb_spec (byte_val a) 9); [discriminate|].
  cbn [String.append str1]. intros [= E _]. apply N2. now rewrite E.
Qed.

(** Without a byte to escape, the escaped copy is the string. *)
Lemma escaped_copy_plain (s : string) :
  string_exists needs_escaping s = false -> escaped_copy s = s.
Proof.
  induction s as [|a s IH]; [reflexivity|]. cbn [string_exists escaped_copy].
  intros H. apply orb_false_iff in H as [Ha Hs]. rewrite (IH Hs).
  unfold needs_escaping in Ha. unfold escape_byte.
  cmp_cases_in Ha; try discriminate; cmp_cases; reflexivity.
Qed.

Lemma escaped_copy_no_break (s : string) :
  string_exists is_break (escaped_copy s) = false.
Proof.
  induction s as [|a s IH]; [reflexivity|].
  cbn [escaped_copy]. rewrite string_exists_app, IH, orb_false_r.
  unfold escape_byte.
  destruct (Z.eqb_spec (byte_val a) 92) as [E|N1];
    [cbn; unfold is_break; rewrite E; reflexivity|].
  destruct (Z.eqb_spec (byte_val a) 34) as [E|N2];
    [cbn; unfold is_break; rewrite E; reflexivity|].
  cbn [orb].
  destruct (Z.eqb_spec (byte_val a) 10); [reflexivity|].
  destruct (Z.eqb_spec (byte_val a) 13); [reflexivity|].
  destruct (Z.eqb_spec (byte_val a) 9); [reflexivity|].
  cbn. unfold is_break. cmp_cases; reflexivity.
Qed.

Lemma escaped_copy_quoting (s : string) :
  string_exists needs_quoting s = false ->
  string_exists needs_quoting (escaped_copy s) = false.
Proof.
  induction s as [|a s IH]; [reflexivity|]. cbn [string_exists escaped_copy].
  intros H. apply orb_false_iff in H as [Ha Hs].
  rewrite string_exists_app, (IH Hs), orb_false_r.
  unfold escape_byte.
  destruct (Z.eqb_spec (byte_val a) 92) as [E|N1];
    [cbn; unfold needs_quoting; rewrite E; reflexivity|].
  destruct (Z.eqb_spec (byte_val a) 34) as [E|N2];
    [unfold needs_quoting in Ha; rewrite E in Ha; discriminate|].
  cbn [orb].
  destruct (Z.eqb_spec (byte_val a) 10) as [E|];
    [unfold needs_quoting in Ha; rewrite E in Ha; discriminate|].
  destruct (Z.eqb_spec (byte_val a) 13) as [E|];
    [unfold needs_quoting in Ha; rewrite E in Ha; discriminate|].
  destruct (Z.eqb_spec (byte_val a) 9) as [E|];
    [unfold needs_quoting in Ha; rewrite E in Ha; discriminate|].
  cbn. now rewrite Ha.
Qed.

Lemma break_needs_quoting (s : string) :
  string_exists needs_quoting s = false -> string_exists is_break s = false.
Proof.
  induction s as [|a s IH]; [reflexivity|]. cbn [string_exists].
  intros H. apply orb_false_iff in H as [Ha Hs]. rewrite (IH Hs), orb_false_r.
  unfold needs_quoting in Ha. unfold is_break.
  cmp_cases_in Ha; try discriminate; cmp_cases; reflexivity.
Qed.

(** Decoding and encoding again brings no byte that needs quotes, and
    removes none. *)
Lemma reencode_quoting (n : nat) :
  forall s : string,
    (String.length s <= n)%nat ->
    string_exists needs_quoting
      (fold_right (fun r acc => EncodeRune r +:+ acc) EmptyString (range_runes n s))
    = string_exists needs_quoting s.
Proof.
  induction n as [|n IH]; intros s Hlen.
  - destruct s; [reflexivity | simpl in Hlen; lia].
  - destruct s as [|a s']; [reflexivity|].
    assert (Hl : (String.length s' <= n)%nat) by (simpl in Hlen; lia).
    remember (String a s') as s eqn:Es.
    assert (Hunf : range_runes (S n) s
                   = let '(r, w) := DecodeRuneInString s in
                     r :: range_runes n (drop_bytes w s)).
    { rewrite Es. reflexivity. }
    rewrite Hunf. clear Hunf.
    destruct (DecodeRuneInString s) as [r w] eqn:Hdec. rewrite Es in Hdec.
    cbn [fold_right]. rewrite string_exists_app.
    destruct ((r =? RuneError) && (w =? 1)%nat) eqn:Hok.
    + destruct (invalid_step a s' r w Hdec Hok) as (-> & -> & Ha).
      destruct (high_byte_tests a Ha) as (_ & E2 & _).
      rewrite IH by (rewrite drop_bytes_length, Es; simpl; lia).
      rewrite Es. cbn [drop_bytes string_exists]. rewrite E2.
      reflexivity.
    + destruct (decode_step a s' r w Hdec Hok) as (Hw & Henc & _).
      rewrite <- Es in *.
      rewrite IH by (rewrite drop_bytes_length, Es; simpl; lia).
      rewrite Henc, <- string_exists_app. now rewrite take_drop_bytes.
Qed.

(** Whatever the string, valid UTF-8 or not, [escapeString] returns one
    token. *)
Lemma escapeString_token (s : string) : one_token (escapeString s).
Proof.
  unfold one_token. rewrite escapeString_reencodes.
  destruct (string_exists needs_quoting s) eqn:Q; cbn [negb andb].
  - split.
    + rewrite !string_exists_app, escaped_copy_no_break. reflexivity.
    + intros _. now exists (reencode s).
  - destruct (string_exists needs_escaping s) eqn:X; cbn [negb].
    + assert (Hq : string_exists needs_quoting (escaped_copy (reencode s)) = false).
      { apply escaped_copy_quoting. unfold reencode, runes.
        now rewrite reencode_quoting. }
      split; [apply escaped_copy_no_break | rewrite Hq; discriminate].
    + split; [now apply break_needs_quoting | rewrite Q; discriminate].
Qed.

Lemma plain_token (x : string) :
  string_exists needs_quoting x = false -> one_token x.
Proof.
  intros H. split; [now apply break_needs_quoting | rewrite H; discriminate].
Qed.

Lemma digits_plain (s : string) :
  all_digits s = true -> string_exists needs_quoting s = false.
Proof.
  induction s as [|a s IH]; [reflexivity|]. cbn [all_digits string_exists].
  intros H. apply andb_true_iff in H as [Ha Hs]. rewrite (IH Hs), orb_false_r.
  apply is_digit_range in Ha. unfold needs_quoting. cmp_cases; reflexivity.
Qed.

Lemma FormatUint_plain (u : Z) :
  0 <= u -> string_exists needs_quoting (FormatUint u) = false.
Proof. intros Hu. apply digits_plain, (FormatUint_spec u Hu). Qed.

Lemma FormatInt_plain (n : Z) : string_exists needs_quoting (FormatInt n) = false.
Proof.
  unfold FormatInt. destruct (Z.ltb_spec n 0).
  - cbn [string_exists]. rewrite FormatUint_plain by lia. reflexivity.
  - now apply FormatUint_plain.
Qed.

Lemma FormatFloat_plain (f : spec_float) :
  string_exists needs_quoting (FormatFloat_f 3 f) = false.
Proof.
  assert (Hbody : forall (sgn : bool) (n : Z), 0 <= n ->
            string_exists needs_quoting
              ((if sgn then "-"%string else EmptyString) +:+
               (FormatUint (n / 1000)
                +:+ String "."%char (pad_digits 3 (n mod 1000) EmptyString)))
            = false).
  { intros sgn n Hn.
    assert (Hq : 0 <= n / 1000) by (apply Z.div_pos; lia).
    destruct (pad_digits_spec 3 (n mod 1000) EmptyString) as (ds & E & A & _).
    rewrite E, append_nil_r, !string_exists_app. cbn [string_exists].
    rewrite (FormatUint_plain _ Hq), (digits_plain ds A).
    destruct sgn; reflexivity. }
  destruct f as [s|s| |s m e]; [| destruct s; reflexivity | reflexivity |].
  - unfold FormatFloat_f. change (10 ^ Z.of_nat 3) with 1000.
    apply (Hbody s 0). lia.
  - unfold FormatFloat_f. change (10 ^ Z.of_nat 3) with 1000.
    apply Hbody.
    destruct (Z.leb_spec 0 e).
    + pose proof (Z.pow_nonneg 2 e ltac:(lia)). nia.
    + apply round_half_even_nonneg; [lia|].
      apply Z.pow_pos_nonneg; lia.
Qed.

Section Tokens.

Context {env : GoEnv}.

Lemma formatLogfmtValue_token (v : value) :
  (forall t, string_exists needs_quoting (Time_Format t) = false) ->
  one_token (formatLogfmtValue v).
Proof.
  intros Htime. destruct v; cbn [formatLogfmtValue];
    try apply escapeString_token; apply plain_token.
  - reflexivity.
  - apply Htime.
  - destruct b; reflexivity.
  - apply FormatFloat_plain.
  - apply FormatFloat_plain.
  - apply FormatInt_plain.
Qed.


Lemma pair_up_app (a b : list value) :
  Nat.even (length a) = true -> pair_up (a ++ b) = pair_up a ++ pair_up b.
Proof.
  induction a as [| x | x y a IH] using pairs_ind; intros H;
    [reflexivity | discriminate |].
  cbn [app pair_up]. now rewrite (IH H).
Qed.

Lemma entry_no_break (x y : value) :
  (forall t, string_exists needs_quoting (Time_Format t) = false) ->
  unbroken_key x = true ->
  string_exists is_break (logfmt_entry (x, y)) = false.
Proof.
  intros Htime Hk.
  assert (Hv : forall v, string_exists is_break (formatLogfmtValue v) = false)
    by (intros v; apply (formatLogfmtValue_token v Htime)).
  unfold logfmt_entry, logfmt_pair, WriteString, WriteByte. cbn [fst snd].
  destruct x; cbn [assert_string negb];
    rewrite ?string_exists_app, ?Hv; try reflexivity.
  cbn [unbroken_key] in Hk. apply negb_true_iff in Hk.
  cbn [String.append]. rewrite Hk. reflexivity.
Qed.

Lemma entries_no_break (l : list (value * value)) :
  (forall t, string_exists needs_quoting (Time_Format t) = false) ->
  forallb (fun xy => unbroken_key xy.1) l = true ->
  string_exists is_break (unwords (map logfmt_entry l)) = false.
Proof.
  intros Htime. induction l as [|[x y] l IH]; [reflexivity|].
  cbn [forallb fst]. intros H. apply andb_true_iff in H as [Hx Hl].
  specialize (IH Hl). destruct l as [|e l].
  - cbn [map]. unfold unwords. cbn [String.concat]. now apply entry_no_break.
  - cbn [map] in *. rewrite unwords_cons, string_exists_app.
    rewrite (entry_no_break x y Htime Hx). cbn [string_exists orb].
    exact IH.
Qed.

(** X11.  One event, one line: when the elements of the event pair up and
    no string key holds a newline, a carriage return or a tab, the text
    [LogFmtFormat] returns has its only line break at the end.  The values
    are escaped; the keys are written as they are. *)
Theorem LogFmtFormat_one_line (record : LogRecord) (st : store) :
  slice_wf st (ContextList record) -> slice_wf st (Pairs record) ->
  Nat.even (s_len (ContextList record) + s_len (Pairs record)) = true ->
  (forall t, string_exists needs_quoting (Time_Format t) = false) ->
  keys_unbroken (slice_elems st (ContextList record)
                 ++ slice_elems st (Pairs record)) = true ->
  exists body,
    (LogFmtFormat record st).2 = Returns (body +:+ str1 (byte_of r_newline)) /\
    string_exists is_break body = false.
Proof.
  intros Hcl Hp Hev Htime Hkeys.
  rewrite (LogFmtFormat_encode record st Hcl). unfold logfmt_encode.
  rewrite logfmt_loop_any, fields_parity.
  rewrite (slice_elems_length st _ Hcl), (slice_elems_length st _ Hp), Hev.
  cbn [default_fields app]. unfold WriteByte. cbn [String.append].
  eexists. split; [reflexivity|].
  apply (entries_no_break _ Htime).
  change (VString "ts" :: VTime (Time record) :: VString "lvl"
          :: VLevel (Level record) :: VString "msg" :: VString (Message record)
          :: slice_elems st (ContextList record)
             ++ slice_elems st (Pairs record) ++ flat (callsite_kvs record))
    with (default_fields record
          ++ (slice_elems st (ContextList record) ++ slice_elems st (Pairs record)
              ++ flat (callsite_kvs record))).
  rewrite pair_up_app by reflexivity.
  rewrite app_assoc, pair_up_app
    by (rewrite length_app, (slice_elems_length st _ Hcl),
          (slice_elems_length st _ Hp); exact Hev).
  rewrite !forallb_app. fold (keys_unbroken (slice_elems st (ContextList record)
                                             ++ slice_elems st (Pairs record))).
  rewrite Hkeys. unfold callsite_kvs.
  destruct (0 <? Line record); reflexivity.
Qed.

End Tokens.

(** X12.  On valid UTF-8, [escapeString] loses nothing: two strings with
    the same result are the same string. *)
Theorem escapeString_injective (s1 s2 : string) :
  ValidString s1 = true -> ValidString s2 = true ->
  escapeString s1 = escapeString s2 -> s1 = s2.
Proof.
  intros V1 V2.
  assert (Hform : forall s, ValidString s = true ->
            escapeString s
            = if string_exists needs_quoting s
              then str1 (byte_of 34) +:+ escaped_copy s +:+ str1 (byte_of 34)
              else escaped_copy s).
  { intros s V. rewrite escapeString_reencodes. unfold reencode, runes.
    unfold ValidString in V. rewrite (reencode_valid _ s (Nat.le_refl _) V).
    destruct (string_exists needs_quoting s); [reflexivity|].
    destruct (string_exists needs_escaping s) eqn:X; [reflexivity|].
    cbn [negb andb]. symmetry. now apply escaped_copy_plain. }
  rewrite (Hform s1 V1), (Hform s2 V2).
  destruct (string_exists needs_quoting s1), (string_exists needs_quoting s2);
    intros H.
  - cbn [str1 String.append] in H. injection H as H.
    apply escaped_copy_inj. now apply append_inv_tail in H.
  - symmetry in H. cbn [str1 String.append] in H. now apply escaped_copy_head in H.
  - cbn [str1 String.append] in H. now apply escaped_copy_head in H.
  - now apply escaped_copy_inj.
Qed.

(** ** [merge], twice *)

Section MergeTwice.

Variable range_order : gmap string value -> list (string * value).

Hypothesis range_order_perm : forall m, range_order m ≡ₚ map_to_list m.

Lemma entries_fresh (h : map_store) (c : Ctx) (m : gmap string value) :
  ctx_valid h c -> entries (<[fresh (dom h) := m]> h) c = entries h c.
Proof.
  destruct c as [l|]; [|reflexivity]. cbn [ctx_valid entries]. intros Hv.
  rewrite lookup_insert_ne; [reflexivity|]. intros <-.
  assert (h !! fresh (dom h) = None) as E by (apply not_elem_of_dom, is_fresh).
  rewrite E in Hv. now destruct Hv.
Qed.

Lemma ctx_valid_fresh (h : map_store) (c : Ctx) (m : gmap string value) :
  ctx_valid h c -> ctx_valid (<[fresh (dom h) := m]> h) c.
Proof.
  destruct c as [l|]; [|trivial]. cbn [ctx_valid]. intros Hv.
  destruct (decide (fresh (dom h) = l)) as [<-|N].
  - rewrite lookup_insert_eq. eauto.
  - now rewrite lookup_insert_ne.
Qed.

(** The store and the map [merge] returns. *)
Lemma merge_store (ctx other : Ctx) (h : map_store) :
  ctx_valid h ctx -> ctx_valid h other ->
  merge range_order ctx other h
  = (<[fresh (dom h) := entries h other ∪ entries h ctx]> h, Some (fresh (dom h))).
Proof.
  intros Hctx Hother. unfold merge. f_equal.
  rewrite (entries_fresh h ctx ∅ Hctx).
  rewrite (assign_all (fresh (dom h)) (range_order (entries h ctx))
             (<[fresh (dom h) := ∅]> h) ∅) by apply lookup_insert_eq.
  rewrite (copy_all range_order range_order_perm), insert_insert_eq,
    (right_id_L ∅ (∪)).
  rewrite (entries_fresh h other _ Hother).
  rewrite (assign_all (fresh (dom h)) _ _ (entries h ctx)) by apply lookup_insert_eq.
  now rewrite (copy_all range_order range_order_perm), insert_insert_eq.
Qed.

(** X13.  Merging is associative on the entries: [a.merge(b).merge(c)]
    and [a.merge(b.merge(c))] hold the same keys with the same values. *)
Theorem merge_assoc (a b c : Ctx) (h : map_store) :
  ctx_valid h a -> ctx_valid h b -> ctx_valid h c ->
  let ab := merge range_order a b h in
  let ab_c := merge range_order ab.2 c ab.1 in
  let bc := merge range_order b c h in
  let a_bc := merge range_order a bc.2 bc.1 in
  entries ab_c.1 ab_c.2 = entries a_bc.1 a_bc.2.
Proof.
  intros Ha Hb Hc. cbv zeta.
  rewrite (merge_store a b h Ha Hb), (merge_store b c h Hb Hc). cbn [fst snd].
  assert (Hab : entries (<[fresh (dom h) := entries h b ∪ entries h a]> h) (Some (fresh (dom h)))
                = entries h b ∪ entries h a)
    by (cbn [entries]; now rewrite lookup_insert_eq).
  assert (Hbc : entries (<[fresh (dom h) := entries h c ∪ entries h b]> h) (Some (fresh (dom h)))
                = entries h c ∪ entries h b)
    by (cbn [entries]; now rewrite lookup_insert_eq).
  assert (Vab : ctx_valid (<[fresh (dom h) := entries h b ∪ entries h a]> h) (Some (fresh (dom h))))
    by (cbn [ctx_valid]; rewrite lookup_insert_eq; eauto).
  assert (Vbc : ctx_valid (<[fresh (dom h) := entries h c ∪ entries h b]> h) (Some (fresh (dom h))))
    by (cbn [ctx_valid]; rewrite lookup_insert_eq; eauto).
  rewrite (merge_store (Some (fresh (dom h))) c _ Vab (ctx_valid_fresh h c _ Hc)).
  rewrite (merge_store a (Some (fresh (dom h))) _ (ctx_valid_fresh h a _ Ha) Vbc).
  rewrite Hab, Hbc.
  rewrite (entries_fresh h c _ Hc), (entries_fresh h a _ Ha).
  cbn [fst snd entries]. rewrite !lookup_insert_eq. cbn [default]. unfold id.
  apply (assoc_L (∪)).
Qed.

End MergeTwice.

(** ** Handlers: filters, panics, nesting, [Close] *)

Section HandlerFacts.

Context {World error : Type}.

(** X14.  Filters compose: a filter around a filter passes a record when
    both predicates hold, and a level filter around a level filter is the
    level filter of the higher level. *)
Theorem FilterHandler_nested (p q : LogRecord -> bool) (l1 l2 : LevelT)
    (h : Handler World error) (record : LogRecord) (w : World) :
  FilterHandler p (FilterHandler q h) record w
  = FilterHandler (fun r => p r && q r) h record w /\
  FilterLevelHandler l1 (FilterLevelHandler l2 h) record w
  = FilterLevelHandler (Z.max l1 l2) h record w.
Proof.
  unfold FilterLevelHandler, FilterHandler. split.
  - destruct (p record), (q record); reflexivity.
  - destruct (Z.leb_spec l1 (Level record)), (Z.leb_spec l2 (Level record)),
      (Z.leb_spec (Z.max l1 l2) (Level record)); try reflexivity; lia.
Qed.

(** X15.  A panic of one handler ends [Handle] of the combining handler:
    the panic goes to the caller, and the state of the sinks is the one
    the panicking handler left, so no later handler has seen the record. *)
Theorem combining_panic_stops (before after : list (Handler World error))
    (h : Handler World error) (record : LogRecord) (w w1 w2 : World)
    (err : option error) (p : panic) :
  CombiningHandler before record w = (w1, Returns err) ->
  h record w1 = (w2, Panics p) ->
  CombiningHandler (before ++ h :: after) record w = (w2, Panics p).
Proof.
  unfold CombiningHandler, combiningHandler_Handle. intros Hb Hh.
  rewrite combining_loop_app, Hb. cbn [combining_loop]. now rewrite Hh.
Qed.

Lemma combining_loop_init (hs : list (Handler World error)) (record : LogRecord)
    (e e' : option error) (w : World) :
  hs <> [] -> combining_loop hs record e w = combining_loop hs record e' w.
Proof. destruct hs as [|h hs]; [contradiction | reflexivity]. Qed.

(** X16.  A combining handler inside a combining handler behaves as its
    handlers spliced in, as long as a handler follows; an empty combining
    handler in the last place makes [Handle] return [nil], whatever the
    handlers before it returned. *)
Theorem CombiningHandler_nested (before inner after : list (Handler World error))
    (record : LogRecord) (w : World) :
  (inner <> [] \/ after <> [] ->
   CombiningHandler (before ++ CombiningHandler inner :: after) record w
   = CombiningHandler (before ++ inner ++ after) record w) /\
  (forall w1 err, CombiningHandler before record w = (w1, Returns err) ->
     CombiningHandler (before ++ [CombiningHandler []]) record w
     = (w1, Returns None)).
Proof.
  unfold CombiningHandler, combiningHandler_Handle. split.
  - intros Hne. rewrite !combining_loop_app.
    destruct (combining_loop before record None w) as [w0 [e0|p]]; [|reflexivity].
    cbn [combining_loop]. rewrite combining_loop_app.
    destruct inner as [|h inner].
    + cbn [combining_loop]. destruct Hne as [Hne|Hne]; [contradiction|].
      now apply combining_loop_init.
    + rewrite (combining_loop_init (h :: inner) record e0 None) by discriminate.
      destruct (combining_loop (h :: inner) record None w0) as [w' [e'|p']];
        reflexivity.
  - intros w1 err Hb. rewrite combining_loop_app, Hb. reflexivity.
Qed.

(** X17.  [Close] of the combining handler does not reach a handler that is
    wrapped in a filter: the filter is a [HandlerFunc], without [Close],
    so the handlers behind it stay open. *)
Theorem Close_skips_filtered (wrapped : list ((LogRecord -> bool) * handler_value World error))
    (w : World) :
  combiningHandler_Close
    (map (fun ph => FilterHandler_value ph.1 ph.2) wrapped) w = w /\
  HandlerCloser (combiningHandler
    (map (fun ph => FilterHandler_value ph.1 ph.2) wrapped))
  <> None.
Proof.
  split; [|discriminate].
  unfold combiningHandler_Close.
  induction wrapped as [|[p h] wrapped IH]; [reflexivity|]. exact IH.
Qed.

End HandlerFacts.

(** ** Closed instances *)

Lemma LogFmtFormat_panics_iff_odd_witness :
  slice_wf odd_store (ContextList odd_record) /\
  slice_wf odd_store (Pairs odd_record) /\
  (@LogFmtFormat demoEnv odd_record odd_store).2 = Panics IndexOutOfRange.
Proof.
  assert (H1 : slice_wf odd_store (ContextList odd_record))
    by (split; vm_compute; lia).
  assert (H2 : slice_wf odd_store (Pairs odd_record))
    by (split; vm_compute; lia).
  split; [exact H1|]. split; [exact H2|].
  exact (@LogFmtFormat_panics_iff_odd demoEnv odd_record odd_store H1 H2).
Defined.

Lemma ThemedTerminalFormat_returns_iff_witness :
  slice_wf plain_store (ContextList plain_record) /\
  exists out,
    (@ThemedTerminalFormat demoEnv (mkTheme (fun _ s => s)) plain_record
       plain_store).2 = Returns out.
Proof.
  assert (Hwf : slice_wf plain_store (ContextList plain_record))
    by (split; vm_compute; lia).
  split; [exact Hwf|].
  apply (proj2 (@ThemedTerminalFormat_returns_iff demoEnv (mkTheme (fun _ s => s))
                  plain_record plain_store Hwf)).
  split; [vm_compute; discriminate | vm_compute; reflexivity].
Defined.

Lemma JSONFormat_returns_iff_witness :
  slice_wf badkey_store (ContextList badkey_record) /\
  separate (ContextList badkey_record) (Pairs badkey_record) /\
  Nat.even (s_len (ContextList badkey_record)) = true /\
  ~ exists out, (@JSONFormat demoEnv false badkey_record badkey_store).2 = Returns out.
Proof.
  assert (Hwf : slice_wf badkey_store (ContextList badkey_record))
    by (split; vm_compute; lia).
  assert (Hsep : separate (ContextList badkey_record) (Pairs badkey_record))
    by (left; discriminate).
  assert (Hev : Nat.even (s_len (ContextList badkey_record)) = true)
    by reflexivity.
  split; [exact Hwf|]. split; [exact Hsep|]. split; [exact Hev|].
  intros H.
  apply (proj1 (@JSONFormat_returns_iff demoEnv false badkey_record badkey_store
                  Hwf Hsep Hev)) in H.
  vm_compute in H. discriminate H.
Defined.

Lemma formatters_keep_elements_witness :
  slice_wf shared_store (ContextList parent_record) /\
  out_of_reach (ContextList parent_record) (ContextList parent_record) /\
  slice_elems (@LogFmtFormat demoEnv parent_record shared_store).1
              (ContextList parent_record)
  = [VString "app"; VString "web"].
Proof.
  assert (Hwf : slice_wf shared_store (ContextList parent_record))
    by (split; vm_compute; lia).
  assert (Hpos : out_of_reach (ContextList parent_record) (ContextList parent_record))
    by (right; split; [reflexivity | vm_compute; lia]).
  split; [exact Hwf|]. split; [exact Hpos|].
  rewrite (proj2 (proj2 (@formatters_keep_elements demoEnv (mkTheme (fun _ s => s))
                           parent_record shared_store _ Hwf Hwf Hpos))).
  vm_compute. reflexivity.
Defined.

Lemma JSONFormat_store_effect_witness :
  slice_wf static_store (ContextList static_record) /\
  slice_elems (@JSONFormat demoEnv true static_record static_store).1
              (ContextList static_record)
  = [VString "n"; VString "42"; VString "k"; VString "<nil>"].
Proof.
  assert (Hwf : slice_wf static_store (ContextList static_record))
    by (split; vm_compute; lia).
  split; [exact Hwf|].
  rewrite (proj1 (@JSONFormat_store_effect demoEnv true true static_record
                    static_store Hwf)).
  vm_compute. reflexivity.
Defined.

Lemma Format_repeatable_witness :
  slice_wf plain_store (ContextList plain_record) /\
  slice_wf plain_store (Pairs plain_record) /\
  s_arr (Pairs plain_record) <> s_arr (ContextList plain_record) /\
  (@JSONFormat demoEnv false plain_record
     (@JSONFormat demoEnv false plain_record plain_store).1).2
  = (@JSONFormat demoEnv false plain_record plain_store).2.
Proof.
  assert (H1 : slice_wf plain_store (ContextList plain_record))
    by (split; vm_compute; lia).
  assert (H2 : slice_wf plain_store (Pairs plain_record))
    by (split; vm_compute; lia).
  assert (H3 : s_arr (Pairs plain_record) <> s_arr (ContextList plain_record))
    by discriminate.
  split; [exact H1|]. split; [exact H2|]. split; [exact H3|].
  exact (proj1 (proj2 (@Format_repeatable demoEnv (mkTheme (fun _ s => s)) false
                         plain_record plain_store H1 H2 H3))).
Defined.

Lemma LogFmtFormat_after_JSONFormat_witness :
  slice_wf static_store (ContextList static_record) /\
  slice_wf static_store (Pairs static_record) /\
  s_arr (Pairs static_record) <> s_arr (ContextList static_record) /\
  (@LogFmtFormat demoEnv static_record
     (@JSONFormat demoEnv false static_record static_store).1).2
  = Returns ("ts=2021-03-04T05:06:07.000000008Z lvl=INFO msg=hi n=42 k=<nil>"
             +:+ str1 (byte_of r_newline)).
Proof.
  assert (H1 : slice_wf static_store (ContextList static_record))
    by (split; vm_compute; lia).
  assert (H2 : slice_wf static_store (Pairs static_record))
    by (split; vm_compute; lia).
  assert (H3 : s_arr (Pairs static_record) <> s_arr (ContextList static_record))
    by discriminate.
  split; [exact H1|]. split; [exact H2|]. split; [exact H3|].
  rewrite (proj1 (@LogFmtFormat_after_JSONFormat demoEnv false static_record
                    static_store H1 H2 H3)).
  vm_compute. reflexivity.
Defined.

Lemma JSONFormat_reserved_keys_witness :
  slice_wf plain_store (ContextList plain_record) /\
  separate (ContextList plain_record) (Pairs plain_record) /\
  slice_elems plain_store (ContextList plain_record)
  = flat [("app"%string, VString "web")] /\
  slice_elems plain_store (Pairs plain_record)
  = flat [("user"%string, VInt KInt 7)] /\
  exists tmpMap : gmap string value,
    (@JSONFormat demoEnv false plain_record plain_store).2
    = Returns (@json_serialize demoEnv false tmpMap) /\
    tmpMap !! "file"%string = Some (VString "main.go") /\
    tmpMap !! "line"%string = Some (VInt KInt 12) /\
    tmpMap !! "user"%string = Some (VInt KInt 7).
Proof.
  assert (Hwf : slice_wf plain_store (ContextList plain_record))
    by (split; vm_compute; lia).
  assert (Hsep : separate (ContextList plain_record) (Pairs plain_record))
    by (left; discriminate).
  assert (Hs : slice_elems plain_store (ContextList plain_record)
               = flat [("app"%string, VString "web")])
    by (vm_compute; reflexivity).
  assert (Hd : slice_elems plain_store (Pairs plain_record)
               = flat [("user"%string, VInt KInt 7)])
    by (vm_compute; reflexivity).
  split; [exact Hwf|]. split; [exact Hsep|]. split; [exact Hs|]. split; [exact Hd|].
  destruct (@JSONFormat_reserved_keys demoEnv false plain_record plain_store
              _ _ Hwf Hsep Hs Hd) as (tmpMap & E & Hsite & Huser & _).
  assert (Hline : 0 < Line plain_record) by (vm_compute; reflexivity).
  exists tmpMap. split; [exact E|].
  split; [exact (proj1 (Hsite Hline))|]. split; [exact (proj2 (Hsite Hline))|].
  apply Huser; [vm_compute; reflexivity|].
  intros _. split; discriminate.
Defined.

Lemma Format_fills_spare_capacity_witness :
  slice_wf shared_store (ContextList parent_record) /\
  slice_wf shared_store (Pairs parent_record) /\
  s_arr (Pairs parent_record) <> s_arr (ContextList parent_record) /\
  (0 < s_len (Pairs parent_record))%nat /\
  (s_len (ContextList parent_record) + s_len (Pairs parent_record)
   <= s_cap (ContextList parent_record))%nat /\
  slice_elems (@JSONFormat demoEnv false parent_record shared_store).1
              (spare_window (ContextList parent_record) (Pairs parent_record))
  = [VString "user"; VInt KInt 7].
Proof.
  assert (H1 : slice_wf shared_store (ContextList parent_record))
    by (split; vm_compute; lia).
  assert (H2 : slice_wf shared_store (Pairs parent_record))
    by (split; vm_compute; lia).
  assert (H3 : s_arr (Pairs parent_record) <> s_arr (ContextList parent_record))
    by discriminate.
  assert (H4 : (0 < s_len (Pairs parent_record))%nat) by (vm_compute; lia).
  assert (H5 : (s_len (ContextList parent_record) + s_len (Pairs parent_record)
                <= s_cap (ContextList parent_record))%nat) by (vm_compute; lia).
  split; [exact H1|]. split; [exact H2|]. split; [exact H3|].
  split; [exact H4|]. split; [exact H5|].
  rewrite (proj2 (@Format_fills_spare_capacity demoEnv false parent_record
                    shared_store H1 H2 H3 H4 H5)).
  vm_compute. reflexivity.
Defined.


Lemma escapeString_injective_witness :
  ValidString escaping_sample = true /\
  escapeString escaping_sample = escapeString escaping_sample /\
  escaping_sample = escaping_sample.
Proof.
  assert (V : ValidString escaping_sample = true) by reflexivity.
  assert (E : escapeString escaping_sample = escapeString escaping_sample)
    by reflexivity.
  split; [exact V|]. split; [exact E|].
  exact (escapeString_injective escaping_sample escaping_sample V V E).
Defined.

Lemma merge_assoc_witness :
  (forall m : gmap string value, map_to_list m ≡ₚ map_to_list m) /\
  ctx_valid ctx_store (Some 1%positive) /\ ctx_valid ctx_store (Some 2%positive) /\
  ctx_valid ctx_store None /\
  let ab := merge map_to_list (Some 1%positive) (Some 2%positive) ctx_store in
  let ab_c := merge map_to_list ab.2 None ab.1 in
  let bc := merge map_to_list (Some 2%positive) None ctx_store in
  let a_bc := merge map_to_list (Some 1%positive) bc.2 bc.1 in
  entries ab_c.1 ab_c.2 = entries a_bc.1 a_bc.2.
Proof.
  assert (Hp : forall m : gmap string value, map_to_list m ≡ₚ map_to_list m)
    by reflexivity.
  assert (H1 : ctx_valid ctx_store (Some 1%positive)) by (vm_compute; eauto).
  assert (H2 : ctx_valid ctx_store (Some 2%positive)) by (vm_compute; eauto).
  assert (H3 : ctx_valid ctx_store None) by exact I.
  split; [exact Hp|]. split; [exact H1|]. split; [exact H2|]. split; [exact H3|].
  exact (merge_assoc map_to_list Hp (Some 1%positive) (Some 2%positive) None
           ctx_store H1 H2 H3).
Defined.

Lemma combining_panic_stops_witness :
  (CombiningHandler stream_handlers odd_record (odd_store, [])).2
  = Panics IndexOutOfRange /\
  length (CombiningHandler stream_handlers odd_record (odd_store, [])).1.2 = 1%nat.
Proof.
  set (S1 := StreamHandler keep_lines (@SimpleFormat demoEnv)).
  set (S2 := StreamHandler keep_lines (@LogFmtFormat demoEnv)).
  set (w1 := (CombiningHandler [S1] odd_record (odd_store, [])).1).
  set (w2 := (S2 odd_record w1).1).
  assert (H1 : CombiningHandler [S1] odd_record (odd_store, []) = (w1, Returns None))
    by (vm_compute; reflexivity).
  assert (H2 : S2 odd_record w1 = (w2, Panics IndexOutOfRange))
    by (vm_compute; reflexivity).
  change stream_handlers with ([S1] ++ S2 :: [S1]).
  rewrite (combining_panic_stops [S1] [S1] S2 odd_record (odd_store, []) w1 w2
             None IndexOutOfRange H1 H2).
  split; [reflexivity | vm_compute; reflexivity].
Defined.

Lemma CombiningHandler_nested_witness :
  sample_handlers <> [] /\
  CombiningHandler [CombiningHandler sample_handlers] nofile_record []
  = CombiningHandler sample_handlers nofile_record [] /\
  CombiningHandler sample_handlers nofile_record []
  = (["one"; "two"; "three"]%string, Returns (Some "closed"%string)) /\
  CombiningHandler (sample_handlers ++ [CombiningHandler []]) nofile_record []
  = (["one"; "two"; "three"]%string, Returns None).
Proof.
  assert (H : sample_handlers <> []) by discriminate.
  assert (E : CombiningHandler sample_handlers nofile_record []
              = (["one"; "two"; "three"]%string, Returns (Some "closed"%string)))
    by reflexivity.
  split; [exact H|]. split; [|split; [exact E|]].
  - rewrite <- (app_nil_r sample_handlers) at 2.
    exact (proj1 (CombiningHandler_nested [] sample_handlers [] nofile_record [])
                 (or_introl H)).
  - exact (proj2 (CombiningHandler_nested sample_handlers [] [] nofile_record [])
                 _ _ E).
Defined.

Lemma LogFmtFormat_one_line_witness :
  slice_wf plain_store (ContextList plain_record) /\
  slice_wf plain_store (Pairs plain_record) /\
  Nat.even (s_len (ContextList plain_record) + s_len (Pairs plain_record)) = true /\
  (forall t, string_exists needs_quoting (@Time_Format demoEnv t) = false) /\
  keys_unbroken (slice_elems plain_store (ContextList plain_record)
                 ++ slice_elems plain_store (Pairs plain_record)) = true /\
  exists body,
    (@LogFmtFormat demoEnv plain_record plain_store).2
    = Returns (body +:+ str1 (byte_of r_newline)) /\
    string_exists is_break body = false.
Proof.
  assert (H1 : slice_wf plain_store (ContextList plain_record))
    by (split; vm_compute; lia).
  assert (H2 : slice_wf plain_store (Pairs plain_record))
    by (split; vm_compute; lia).
  assert (H3 : Nat.even (s_len (ContextList plain_record)
                         + s_len (Pairs plain_record)) = true) by reflexivity.
  assert (H4 : forall t, string_exists needs_quoting (@Time_Format demoEnv t) = false)
    by (intros t; reflexivity).
  assert (H5 : keys_unbroken (slice_elems plain_store (ContextList plain_record)
                              ++ slice_elems plain_store (Pairs plain_record)) = true)
    by (vm_compute; reflexivity).
  split; [exact H1|]. split; [exact H2|]. split; [exact H3|].
  split; [exact H4|]. split; [exact H5|].
  exact (@LogFmtFormat_one_line demoEnv plain_record plain_store H1 H2 H3 H4 H5).
Defined.
